(** * The public API of the drawing core (src/api.js)

    [api.js] is a facade over a context object [ctx] that carries the feature
    store ([ctx.store]), the mode controller ([ctx.events]) and the map
    ([ctx.map]).  Each API method is embedded as a computation in a monad
    that threads the context and can throw: a JavaScript [throw] keeps every
    mutation made before it, so a thrown outcome carries the context reached
    at the point of the throw.

    [api.getFeatureIdsAt] and [api.trash] only hand over to collaborators
    (hit testing, the discard handler) and are left out. *)

From Stdlib Require Import String List ZArith Bool Arith Lia DecimalString.
Import ListNotations.
Local Open Scope string_scope.
Local Open Scope list_scope.

(** ** JSON data *)

(** Coordinate data: nested arrays of numbers.  The API never computes with
    a coordinate, it stores, copies and compares them. *)
#[warnings="-register-all"]
Inductive Coords : Type :=
| CNum (n : Z)
| CArr (items : list Coords).

(** Values of a properties object; the API passes them through unread. *)
#[warnings="-register-all"]
Inductive JSON : Type :=
| JNull
| JBool (b : bool)
| JNum (n : Z)
| JStr (s : string)
| JArr (items : list JSON)
| JObj (members : list (string * JSON)).

Definition Props : Type := list (string * JSON).

(** [lodash.isequal] on coordinate data (api.js line 86): deep structural
    equality of nested arrays of numbers. *)
Fixpoint isEqual (a b : Coords) {struct a} : bool :=
  match a, b with
  | CNum x, CNum y => Z.eqb x y
  | CArr xs, CArr ys =>
      (fix all2 (l1 l2 : list Coords) {struct l1} : bool :=
         match l1, l2 with
         | [], [] => true
         | x :: l1', y :: l2' => isEqual x y && all2 l1' l2'
         | _, _ => false
         end) xs ys
  | _, _ => false
  end.

(** ** GeoJSON, the wire format *)

Record Geometry : Type := mkGeometry {
  g_type : string;
  g_coordinates : Coords
}.

(** A GeoJSON Feature.  [gf_id = None] is a feature without an [id] member,
    [gf_geometry = None] is [geometry: null]. *)
Record GeoFeature : Type := mkGeoFeature {
  gf_id : option string;
  gf_properties : Props;
  gf_geometry : option Geometry
}.

Inductive GeoJSON : Type :=
| FeatureCollection (features : list GeoFeature)
| FeatureObject (feature : GeoFeature)
| GeometryObject (geometry : Geometry).

(** One entry of the list [geojsonhint.hint] returns. *)
Record HintIssue : Type := mkHintIssue {
  level : option string;
  message : string
}.

(** ** Feature models and the store *)

(** The classes of api.js lines 9-18.  api.js tells instances apart only by
    [instanceof MultiFeature]; the geometry variant is the [type] field. *)
Inductive Model : Type :=
| SinglePart
| MultiFeature.

Definition Model_eqb (a b : Model) : bool :=
  match a, b with
  | SinglePart, SinglePart => true
  | MultiFeature, MultiFeature => true
  | _, _ => false
  end.

(** The own properties of the object literal [featureTypes] (api.js lines
    11-18).  The lookup [featureTypes[type]] of line 76 also finds what the
    literal inherits; it is [featureTypes_get] below. *)
Definition featureTypes (t : string) : option Model :=
  if t =? "Polygon" then Some SinglePart
  else if t =? "LineString" then Some SinglePart
  else if t =? "Point" then Some SinglePart
  else if t =? "MultiPolygon" then Some MultiFeature
  else if t =? "MultiLineString" then Some MultiFeature
  else if t =? "MultiPoint" then Some MultiFeature
  else None.

(** Modelled from the spec: the feature model classes (feature_types/*.js)
    are not under src/.  Spec section 3: a Feature has a string id, a
    geometry-type tag, a properties mapping and coordinate data. *)
Record Feature : Type := mkFeature {
  id : string;
  type : string;
  properties : Props;
  coordinates : Coords;
  model : Model
}.

(** Modelled from the spec: store.js is not under src/.  Spec section 3: the
    store is a mapping from id to Feature with a stable iteration order,
    plus a selection, an ordered set of ids.  Section 4.1 adds the render
    batch; [batchOpen] tells whether one is open. *)
Record Store : Type := mkStore {
  features : list Feature;
  selectedIds : list string;
  batchOpen : bool
}.

(** ** The mode controller and the context *)

(** The geometries a user draws: the single-part variants of section 3. *)
Inductive Drawing : Type :=
| DrawPoint
| DrawLineString
| DrawPolygon.

Definition Drawing_eqb (a b : Drawing) : bool :=
  match a, b with
  | DrawPoint, DrawPoint => true
  | DrawLineString, DrawLineString => true
  | DrawPolygon, DrawPolygon => true
  | _, _ => false
  end.

(** Modelled from the spec: constants.js ([Constants.modes]) is not under
    src/.  Section 3: the closed set of simple-select, direct-select and
    one mode per drawing variant. *)
Inductive Mode : Type :=
| SIMPLE_SELECT
| DIRECT_SELECT
| DRAW (variant : Drawing).

Definition Mode_eqb (a b : Mode) : bool :=
  match a, b with
  | SIMPLE_SELECT, SIMPLE_SELECT => true
  | DIRECT_SELECT, DIRECT_SELECT => true
  | DRAW v, DRAW w => Drawing_eqb v w
  | _, _ => false
  end.

(** The [modeOptions] object read by [api.changeMode]: [featureIds] and
    [featureId], each possibly [undefined]. *)
Record ModeOptions : Type := mkModeOptions {
  featureIds : option (list string);
  featureId : option string
}.

Definition noOptions : ModeOptions := mkModeOptions None None.

(** What the core sends to its collaborators: a render request, a mode
    transition handed to the mode-change handler, an event fired on the
    map. *)
Inductive Effect : Type :=
| Render
| ModeTransition (m : Mode) (opts : option ModeOptions)
| Fire (event : string) (payload : list GeoFeature).

(** [ctx]: the store, the mode controller's current mode, the effects sent
    so far (oldest first) and the number of ids [hat] has handed out. *)
Record Ctx : Type := mkCtx {
  store : Store;
  currentMode : Mode;
  currentModeOptions : option ModeOptions;
  effects : list Effect;
  hatCount : nat
}.

Definition with_store (s : Store) (c : Ctx) : Ctx :=
  mkCtx s (currentMode c) (currentModeOptions c) (effects c) (hatCount c).

Definition emit (e : Effect) (c : Ctx) : Ctx :=
  mkCtx (store c) (currentMode c) (currentModeOptions c) (effects c ++ [e]) (hatCount c).

(** ** Computations that thread the context and may throw *)

Inductive Error : Type :=
| Err (msg : string)
| TypeError.

Inductive Outcome (A : Type) : Type :=
| Returned (a : A) (c : Ctx)
| Thrown (e : Error) (c : Ctx).
Arguments Returned {A} a c.
Arguments Thrown {A} e c.

Definition Js (A : Type) : Type := Ctx -> Outcome A.

Definition ret {A} (a : A) : Js A := fun c => Returned a c.

Definition throw {A} (e : Error) : Js A := fun c => Thrown e c.

Definition bind {A B} (m : Js A) (k : A -> Js B) : Js B :=
  fun c =>
    match m c with
    | Returned a c' => k a c'
    | Thrown e c' => Thrown e c'
    end.

Declare Scope js_scope.
Delimit Scope js_scope with js.
Notation "x <- m ;; k" := (bind m (fun x => k))
  (at level 61, m at next level, right associativity) : js_scope.
Notation "m ;; k" := (bind m (fun _ => k))
  (at level 61, right associativity) : js_scope.
Local Open Scope js_scope.

Definition gets {A} (f : Ctx -> A) : Js A := fun c => Returned (f c) c.

Definition modify (f : Ctx -> Ctx) : Js unit := fun c => Returned tt (f c).

(** [Array.prototype.map] with an effectful callback: elements in order, a
    throw ends the loop. *)
Fixpoint mapM {A B} (f : A -> Js B) (l : list A) : Js (list B) :=
  match l with
  | [] => ret []
  | x :: l' => y <- f x ;; ys <- mapM f l' ;; ret (y :: ys)
  end.

(** [Array.prototype.forEach] whose callback updates local variables,
    collected in the accumulator. *)
Fixpoint foldM {A B} (f : B -> A -> Js B) (l : list A) (b : B) : Js B :=
  match l with
  | [] => ret b
  | x :: l' => b' <- f b x ;; foldM f l' b'
  end.

(** ** The store (ctx.store) *)

Definition has_id (i : string) (f : Feature) : bool := id f =? i.

Definition mem (i : string) (l : list string) : bool := existsb (String.eqb i) l.

(** Modelled from the spec: store.js is not under src/.  [get(id)] returns
    the Feature for [id] or a not-found signal; api.js line 74 compares that
    signal with [undefined], here [None]. *)
Definition store_get (i : string) (s : Store) : option Feature :=
  find (has_id i) (features s).

Fixpoint replace_feature (f : Feature) (l : list Feature) : list Feature :=
  match l with
  | [] => []
  | g :: l' => if has_id (id f) g then f :: l' else g :: replace_feature f l'
  end.

(** Modelled from the spec: store.js is not under src/.  [add(feature)]
    inserts or replaces a Feature by id; a replaced entry keeps its place in
    the iteration order, a new one goes last. *)
Definition store_add (f : Feature) (s : Store) : Store :=
  match store_get (id f) s with
  | Some _ => mkStore (replace_feature f (features s)) (selectedIds s) (batchOpen s)
  | None => mkStore (features s ++ [f]) (selectedIds s) (batchOpen s)
  end.

(** Modelled from the spec: store.js is not under src/.  [getAllIds()]. *)
Definition store_getAllIds (s : Store) : list string := map id (features s).

(** Modelled from the spec: store.js is not under src/.  [getSelectedIds()]. *)
Definition store_getSelectedIds (s : Store) : list string := selectedIds s.

(** Modelled from the spec: store.js is not under src/.  [delete(ids, opts)]
    removes the listed Features and prunes them from the selection set; the
    render notification that [opts.silent] suppresses is sent by
    [ctx_store_delete] below. *)
Definition store_delete (ids : list string) (s : Store) : Store :=
  mkStore (filter (fun f => negb (mem (id f) ids)) (features s))
          (filter (fun i => negb (mem i ids)) (selectedIds s))
          (batchOpen s).

(** Keeps the first occurrence of each id. *)
Fixpoint dedup (l : list string) : list string :=
  match l with
  | [] => []
  | i :: l' => i :: filter (fun j => negb (j =? i)) (dedup l')
  end.

(** Modelled from the spec: store.js is not under src/.  [setSelected(ids)]:
    the selection is an ordered set of ids of stored features; an id that
    is not in the store is dropped.  api.js line 144 may pass [undefined],
    taken as no ids. *)
Definition store_setSelected (ids : option (list string)) (s : Store) : Store :=
  let wanted := match ids with Some l => l | None => [] end in
  mkStore (features s)
          (dedup (filter (fun i => mem i (store_getAllIds s)) wanted))
          (batchOpen s).

(** In-place mutation of a stored object (api.js lines 85-88: the object
    [ctx.store.get] returns is the stored one): the entry [get] finds for
    the id of [f] now reads [f]. *)
Definition store_mutate (f : Feature) (s : Store) : Store :=
  mkStore (replace_feature f (features s)) (selectedIds s) (batchOpen s).

(** Modelled from the spec: store.js is not under src/.  [render()]
    requests a render from the rendering collaborator; while a render batch
    is open the request is held back (section 4.1). *)
Definition ctx_store_render : Js unit :=
  fun c => Returned tt (if batchOpen (store c) then c else emit Render c).

(** The store with its render batch open ([true]) or closed. *)
Definition with_batch (b : bool) (s : Store) : Store :=
  mkStore (features s) (selectedIds s) b.

(** Modelled from the spec: store.js is not under src/.
    [createRenderBatch()] opens a batch; the closer it returns is
    [renderBatch_close], which commits exactly one render notification. *)
Definition ctx_store_createRenderBatch : Js unit :=
  modify (fun c => with_store (with_batch true (store c)) c).

Definition renderBatch_close : Js unit :=
  modify (fun c => emit Render (with_store (with_batch false (store c)) c)).

Definition ctx_store_get (i : string) : Js (option Feature) :=
  gets (fun c => store_get i (store c)).

Definition ctx_store_add (f : Feature) : Js unit :=
  modify (fun c => with_store (store_add f (store c)) c).

Definition ctx_store_delete (ids : list string) (silent : bool) : Js unit :=
  modify (fun c => with_store (store_delete ids (store c)) c) ;;
  if silent then ret tt else ctx_store_render.

Definition ctx_store_mutate (f : Feature) : Js unit :=
  modify (fun c => with_store (store_mutate f (store c)) c).

Definition ctx_store_setSelected (ids : option (list string)) : Js unit :=
  modify (fun c => with_store (store_setSelected ids (store c)) c).

(** ** The mode controller (ctx.events) and the map (ctx.map) *)

(** Modelled from the spec: events.js is not under src/.  [getMode()]. *)
Definition ctx_events_getMode : Js Mode := gets currentMode.

(** Section 4.3: direct-select requires exactly one live target, the
    stored feature that the option [featureId] names. *)
Definition live_target (opts : option ModeOptions) (s : Store) : bool :=
  match opts with
  | Some o =>
      match featureId o with
      | Some i => match store_get i s with Some _ => true | None => false end
      | None => false
      end
  | None => false
  end.

(** Modelled from the spec: events.js is not under src/.  A full transition
    (section 4.3): the mode-change handler is notified and the requested
    mode, one of the closed set, becomes with its options the one active
    mode (section 3).  Direct-select requires exactly one live target
    (section 4.3): a transition to it without one fails and changes
    nothing.  The spec says no more of the handler: what the set-up and the
    tear-down of a mode do besides (the feature a drawing mode holds while
    it is drawn, the selection a mode starts with, the handler's own render)
    is not modelled.  The properties below rely on the handler for the
    transition that [delete] and [deleteAll] force, and for keeping the
    invariants of the store; where [changeMode] makes a full transition
    they state the call of the handler, not its result. *)
Definition ctx_events_changeMode (m : Mode) (opts : option ModeOptions) : Js unit :=
  fun c =>
    if Mode_eqb m DIRECT_SELECT && negb (live_target opts (store c))
    then Thrown (Err "direct_select requires a live target") c
    else Returned tt (emit (ModeTransition m opts)
                        (mkCtx (store c) m opts (effects c) (hatCount c))).

(** [ctx.map.fire(event, {features})]. *)
Definition ctx_map_fire (event : string) (payload : list GeoFeature) : Js unit :=
  modify (emit (Fire event payload)).

(** Modelled from the spec: constants.js is not under src/.  The name of the
    creation event; only its identity matters. *)
Definition CREATE : string := "draw.create".

(** Modelled from the spec: lib/string_sets_are_equal.js is not under src/.
    Section 4.3: the two id lists are identical as unordered sets of ids. *)
Definition stringSetsAreEqual (a b : list string) : bool :=
  forallb (fun i => mem i b) a && forallb (fun i => mem i a) b.

(** Modelled from the spec: feature_types/feature.js is not under src/.
    [toGeoJSON()], the GeoJSON form of a feature (section 8, first
    scenario). *)
Definition toGeoJSON (f : Feature) : GeoFeature :=
  mkGeoFeature (Some (id f)) (properties f)
               (Some (mkGeometry (type f) (coordinates f))).

(** Modelled from the spec: feature_types/feature.js is not under src/.
    [getCoordinates()] and [incomingCoords(coords)], the coordinate get and
    set of the uniform Feature contract (section 2). *)
Definition getCoordinates (f : Feature) : Coords := coordinates f.

Definition incomingCoords (cs : Coords) (f : Feature) : Feature :=
  mkFeature (id f) (type f) (properties f) cs (model f).

Definition set_properties (p : Props) (f : Feature) : Feature :=
  mkFeature (id f) (type f) p (coordinates f) (model f).

(** [normalize] of the geojson-normalize package, as section 4.2 step 2
    describes it: a single Feature or a bare Geometry becomes a
    FeatureCollection of one feature. *)
Definition normalize (g : GeoJSON) : list GeoFeature :=
  match g with
  | FeatureCollection fs => fs
  | FeatureObject f => [f]
  | GeometryObject geom => [mkGeoFeature None [] (Some geom)]
  end.

(** Modelled from the spec: feature_types/multi_feature.js is not under
    src/.  The base type of a composite type [Multi<BaseType>] (section
    4.4): ["Multi" ++ t] gives [t]. *)
Definition baseType (t : string) : string :=
  if prefix "Multi" t then substring 5 (String.length t - 5) t else t.

(** The constituent parts of the coordinates of a composite. *)
Definition parts_of (cs : Coords) : list Coords :=
  match cs with
  | CArr items => items
  | CNum _ => []
  end.

(** The names every object literal inherits from [Object.prototype]. *)
Definition Object_prototype : list string :=
  ["constructor"; "hasOwnProperty"; "isPrototypeOf"; "propertyIsEnumerable";
   "toLocaleString"; "toString"; "valueOf"; "__defineGetter__";
   "__defineSetter__"; "__lookupGetter__"; "__lookupSetter__"; "__proto__"].

(** What the lookup [featureTypes[type]] can find: one of the required
    classes, the function [Object] (under ["constructor"]), or another
    inherited member, none of which can be called with [new]. *)
Inductive Member : Type :=
| Class (m : Model)
| ObjectFunction
| NotConstructor.

(** [featureTypes[type]] (api.js line 76): an own property of the literal,
    else a member inherited from [Object.prototype]; [None] is
    [undefined]. *)
Definition featureTypes_get (t : string) : option Member :=
  match featureTypes t with
  | Some m => Some (Class m)
  | None =>
      if t =? "constructor" then Some ObjectFunction
      else if mem t Object_prototype then Some NotConstructor
      else None
  end.

(** Modelled from the spec: store.js is not under src/.
    [ctx.store.add(ctx)]: for the type ["constructor"] line 80 evaluates
    [new Object(ctx, feature)], which is the context object itself, and
    line 81 hands it to the store.  Section 4.1 describes [add] for Feature
    Model instances only; the context object is none and has no id, and no
    feature is stored for it.  The properties of what [add] stores exclude
    this type by hypothesis. *)
Definition ctx_store_add_context : Js unit := ret tt.

(** What an API method that ends in [return api] hands back: the api object,
    or [undefined] after a bare [return]. *)
Inductive ApiResult : Type :=
| api
| undefined.

(** ** The API (src/api.js) *)

Section Api.

(** [geojsonhint.hint(geojson, { precisionWarning: false })], the validator
    of the geojsonhint package. *)
Variable hint : GeoJSON -> list HintIssue.

(** The ids the generator of the hat package hands out, in order. *)
Variable hat_ids : nat -> string.

Definition hat : Js string :=
  fun c => Returned (hat_ids (hatCount c))
    (mkCtx (store c) (currentMode c) (currentModeOptions c) (effects c) (S (hatCount c))).

(** [x || hat()] for an id [x]: a missing or empty id is falsy. *)
Definition id_or_hat (x : option string) : Js string :=
  match x with
  | Some s => if s =? "" then hat else ret s
  | None => hat
  end.

(** Modelled from the spec: feature_types/feature.js and multi_feature.js
    are not under src/.  [new model(ctx, geojson)]: the feature takes the id
    of [geojson] or a generated one (section 3), and its type, properties
    and coordinates.  A composite is built only with one of the three Multi
    type tags of section 3; with another tag its constructor fails (section
    9: an unsupported-type error). *)
Definition new_model (m : Model) (i : option string) (p : Props) (g : Geometry) : Js Feature :=
  i' <- id_or_hat i ;;
  match m with
  | SinglePart => ret (mkFeature i' (g_type g) p (g_coordinates g) m)
  | MultiFeature =>
      match featureTypes (g_type g) with
      | Some MultiFeature => ret (mkFeature i' (g_type g) p (g_coordinates g) m)
      | _ => throw TypeError
      end
  end.

(** Modelled from the spec: feature_types/multi_feature.js is not under
    src/.  [getFeatures()] (section 4.4): one Feature per constituent part,
    of the base type, with an id of its own and no properties. *)
Definition getFeatures (f : Feature) : Js (list Feature) :=
  mapM (fun cs => new_model SinglePart None [] (mkGeometry (baseType (type f)) cs))
       (parts_of (coordinates f)).

(** [feature instanceof MultiFeature]; [undefined] is an instance of
    nothing. *)
Definition instanceof_MultiFeature (f : option Feature) : bool :=
  match f with
  | Some g => Model_eqb (model g) MultiFeature
  | None => false
  end.

(** [api.getMode] (api.js lines 158-160). *)
Definition api_getMode : Js Mode := ctx_events_getMode.

(** [api.getSelectedIds] (api.js lines 30-32). *)
Definition api_getSelectedIds : Js (list string) :=
  gets (fun c => store_getSelectedIds (store c)).

(** [api.getSelected] (api.js lines 34-39); [toGeoJSON] of [undefined]
    throws a TypeError. *)
Definition api_getSelected : Js GeoJSON :=
  ids <- api_getSelectedIds ;;
  selected <- mapM ctx_store_get ids ;;
  geojsons <- mapM (fun feature => match feature with
                                   | Some f => ret (toGeoJSON f)
                                   | None => throw TypeError
                                   end) selected ;;
  ret (FeatureCollection geojsons).

(** [api.get] (api.js lines 98-103); [None] is the [undefined] of a function
    that ends without a [return]. *)
Definition api_get (i : string) : Js (option GeoFeature) :=
  feature <- ctx_store_get i ;;
  match feature with
  | Some f => ret (Some (toGeoJSON f))
  | None => ret None
  end.

(** [api.getAll] (api.js lines 105-110). *)
Definition api_getAll : Js GeoJSON :=
  gets (fun c => FeatureCollection (map toGeoJSON (features (store c)))).

(** The branch of api.js lines 75-81: the feature has not been created yet,
    or is stored with another type. *)
Definition create_feature (i : string) (feature : GeoFeature) (geometry : Geometry)
    : Js unit :=
  match featureTypes_get (g_type geometry) with
  | None => throw (Err ("Invalid geometry type: " ++ g_type geometry ++ "."))
  | Some (Class m) =>
      internalFeature <- new_model m (Some i) (gf_properties feature) geometry ;;
      ctx_store_add internalFeature
  | Some ObjectFunction => ctx_store_add_context
  | Some NotConstructor => throw TypeError
  end.

(** The branch of api.js lines 83-88: the stored feature is swapped out in
    place. *)
Definition update_feature (internalFeature : Feature) (feature : GeoFeature)
    (geometry : Geometry) : Js unit :=
  let updated := set_properties (gf_properties feature) internalFeature in
  ctx_store_mutate updated ;;
  if negb (isEqual (getCoordinates updated) (g_coordinates geometry))
  then ctx_store_mutate (incomingCoords (g_coordinates geometry) updated)
  else ret tt.

(** The callback of [featureCollection.features.map] (api.js lines 67-91). *)
Definition add_feature (feature : GeoFeature) : Js string :=
  i <- id_or_hat (gf_id feature) ;;
  match gf_geometry feature with
  | None => throw (Err "Invalid geometry: null")
  | Some geometry =>
      existing <- ctx_store_get i ;;
      match existing with
      | None => create_feature i feature geometry
      | Some internalFeature =>
          if negb (type internalFeature =? g_type geometry)
          then create_feature i feature geometry
          else update_feature internalFeature feature geometry
      end ;;
      ret i
  end.

(** The [errors] of api.js line 60: the issues of [hint] whose level is not
    ['message']. *)
Definition hint_errors (geojson : GeoJSON) : list HintIssue :=
  filter (fun e => match level e with
                   | Some l => negb (l =? "message")
                   | None => true
                   end) (hint geojson).

(** [api.add] (api.js lines 59-95).  The copy of line 65 severs aliasing
    with the caller's object; values have no aliasing here. *)
Definition api_add (geojson : GeoJSON) : Js (list string) :=
  match hint_errors geojson with
  | e :: _ => throw (Err (message e))
  | [] =>
      ids <- mapM add_feature (normalize geojson) ;;
      ctx_store_render ;;
      ret ids
  end.

(** [api.delete] (api.js lines 112-123). *)
Definition api_delete (ids : list string) : Js ApiResult :=
  ctx_store_delete ids true ;;
  m <- api_getMode ;;
  selected <- api_getSelectedIds ;;
  (if Mode_eqb m DIRECT_SELECT && (length selected =? 0)%nat
   then ctx_events_changeMode SIMPLE_SELECT None
   else ctx_store_render) ;;
  ret api.

(** [api.deleteAll] (api.js lines 125-136). *)
Definition api_deleteAll : Js ApiResult :=
  all <- gets (fun c => store_getAllIds (store c)) ;;
  ctx_store_delete all true ;;
  m <- api_getMode ;;
  (if Mode_eqb m DIRECT_SELECT
   then ctx_events_changeMode SIMPLE_SELECT None
   else ctx_store_render) ;;
  ret api.

(** [api.set] (api.js lines 41-57).  The guard of line 42 lets through a
    FeatureCollection, whose [features] is a list by its type. *)
Definition api_set (featureCollection : GeoJSON) : Js (list string) :=
  match featureCollection with
  | FeatureCollection _ =>
      ctx_store_createRenderBatch ;;
      toDelete <- gets (fun c => store_getAllIds (store c)) ;;
      newIds <- api_add featureCollection ;;
      let toDelete' := filter (fun i => negb (mem i newIds)) toDelete in
      (if (0 <? length toDelete')%nat
       then (api_delete toDelete' ;; ret tt)
       else ret tt) ;;
      renderBatch_close ;;
      ret newIds
  | _ => throw (Err "Invalid FeatureCollection")
  end.

Definition option_string_eqb (a b : option string) : bool :=
  match a, b with
  | Some x, Some y => x =? y
  | None, None => true
  | _, _ => false
  end.

(** [api.changeMode] (api.js lines 138-156); [modeOptions = None] is an
    omitted argument, replaced by the default [{}]. *)
Definition api_changeMode (mode : Mode) (modeOptions : option ModeOptions) : Js ApiResult :=
  let modeOptions := match modeOptions with Some o => o | None => noOptions end in
  current <- api_getMode ;;
  selected <- api_getSelectedIds ;;
  if Mode_eqb mode SIMPLE_SELECT && Mode_eqb current SIMPLE_SELECT then
    if stringSetsAreEqual
         (match featureIds modeOptions with Some l => l | None => [] end) selected
    then ret api
    else
      ctx_store_setSelected (featureIds modeOptions) ;;
      ctx_store_render ;;
      ret api
  else if Mode_eqb mode DIRECT_SELECT && Mode_eqb current DIRECT_SELECT
          && option_string_eqb (featureId modeOptions) (hd_error selected)
  then ret api
  else
    ctx_events_changeMode mode (Some modeOptions) ;;
    ret api.

(** The callback of [features.forEach] in [api.mergeSelectedFeatures]
    (api.js lines 181-187); the accumulator is the pair of the local arrays
    [coordinates] and [featuresSplit].  Reading [.type] of [undefined]
    throws a TypeError. *)
Definition merge_collect (featureType : string)
    (acc : list Coords * list string) (feature : option Feature)
    : Js (list Coords * list string) :=
  match feature with
  | None => throw TypeError
  | Some f =>
      if negb (type f =? featureType) then ret acc
      else ret (fst acc ++ [getCoordinates f], snd acc ++ [id f])
  end.

(** [api.mergeSelectedFeatures] (api.js lines 167-206); [featureIds = None]
    is a falsy argument. *)
Definition api_mergeSelectedFeatures (featureIds : option (list string)) : Js ApiResult :=
  match featureIds with
  | None => ret undefined
  | Some ids =>
      if (length ids <? 2)%nat then ret undefined
      else
        features <- mapM ctx_store_get ids ;;
        if (length features <? 2)%nat then ret undefined
        else
          match hd None features with
          | None => throw TypeError
          | Some first =>
              let featureType := type first in
              collected <- foldM (merge_collect featureType) features ([], []) ;;
              multiFeature <- new_model MultiFeature None []
                                (mkGeometry ("Multi" ++ featureType) (CArr (fst collected))) ;;
              ctx_store_add multiFeature ;;
              ctx_store_delete ids false ;;
              ctx_map_fire CREATE [toGeoJSON multiFeature] ;;
              ret api
          end
  end.

(** The callback of [selectedFeatures.forEach] in
    [api.splitSelectedFeatures] (api.js lines 219-228); the accumulator is
    the local array [createdFeatures]. *)
Definition split_feature (createdFeatures : list GeoFeature) (feature : option Feature)
    : Js (list GeoFeature) :=
  match feature with
  | Some f =>
      if instanceof_MultiFeature feature then
        subFeatures <- getFeatures f ;;
        created <- foldM (fun acc subFeature =>
                            ctx_store_add subFeature ;;
                            ret (acc ++ [toGeoJSON subFeature]))
                         subFeatures createdFeatures ;;
        ctx_store_delete [id f] false ;;
        ret created
      else ret createdFeatures
  | None => ret createdFeatures
  end.

(** [api.splitSelectedFeatures] (api.js lines 208-234). *)
Definition api_splitSelectedFeatures (featureIds : option (list string)) : Js ApiResult :=
  match featureIds with
  | None => ret undefined
  | Some ids =>
      selectedFeatures <- mapM ctx_store_get ids ;;
      createdFeatures <- foldM split_feature selectedFeatures [] ;;
      ctx_map_fire CREATE createdFeatures ;;
      ret api
  end.

(** ** Vocabulary of the properties *)

Definition resolve (ids : list string) (s : Store) : list (option Feature) :=
  map (fun i => store_get i s) ids.

(** The context after [k] more calls of [hat]. *)
Definition bump (k : nat) (c : Ctx) : Ctx :=
  mkCtx (store c) (currentMode c) (currentModeOptions c) (effects c) (k + hatCount c).

(** The parts [getFeatures] makes of the coordinate list [cs], the first
    one taking the [n]-th generated id. *)
Fixpoint fresh_parts (t : string) (n : nat) (cs : list Coords) : list Feature :=
  match cs with
  | [] => []
  | x :: cs' => mkFeature (hat_ids n) t [] x SinglePart :: fresh_parts t (S n) cs'
  end.

Definition store_add_all (fs : list Feature) (s : Store) : Store :=
  fold_left (fun acc f => store_add f acc) fs s.

(** The render request of [ctx.store.render()]. *)
Definition rendered (c : Ctx) : Ctx :=
  if batchOpen (store c) then c else emit Render c.

(** What [split_feature] does with a composite [f]. *)
Definition split_composite (f : Feature) (c : Ctx) : Ctx :=
  let subs := fresh_parts (baseType (type f)) (hatCount c) (parts_of (coordinates f)) in
  let c1 := bump (length (parts_of (coordinates f))) c in
  rendered (with_store (store_delete [id f] (store_add_all subs (store c1))) c1).

(** [c'] differs from [c] in its effects by render requests only. *)
Definition only_renders (c c' : Ctx) : Prop :=
  exists k, effects c' = effects c ++ repeat Render k.

Definition same_type (t : string) (f : Feature) : bool := type f =? t.

(** The creation events among the effects, each with its feature list. *)
Definition creations (l : list Effect) : list (list GeoFeature) :=
  flat_map (fun e => match e with
                     | Fire ev payload => if ev =? CREATE then [payload] else []
                     | _ => []
                     end) l.

(** Spec section 3: every id in the selection is the id of a stored
    feature. *)
Definition selection_valid (s : Store) : Prop :=
  incl (selectedIds s) (store_getAllIds s).

(** The context after the forced transition to simple-select. *)
Definition forced_to_simple_select (c : Ctx) : Ctx :=
  emit (ModeTransition SIMPLE_SELECT None)
       (mkCtx (store c) SIMPLE_SELECT None (effects c) (hatCount c)).

Definition same_ids (a b : list string) : Prop := forall i, In i a <-> In i b.

Definition ids_or_none (o : option (list string)) : list string :=
  match o with Some l => l | None => [] end.

(** All-or-nothing ingestion: whenever [add] throws, the store is what it
    was before the call. *)
Definition add_all_or_nothing (geojson : GeoJSON) (c : Ctx) : Prop :=
  forall e c', api_add geojson c = Thrown e c' -> store c' = store c.

(** Spec section 3: the type tag of a stored feature is one of the six
    variants, and the feature is an instance of the class [featureTypes]
    gives for it. *)
Definition feature_wf (f : Feature) : Prop := featureTypes (type f) = Some (model f).

(** Spec section 3: the store maps each id to one feature. *)
Definition store_wf (s : Store) : Prop :=
  NoDup (store_getAllIds s) /\ Forall feature_wf (features s).

(** The feature model that [add] stores for a GeoJSON feature that has an
    id of its own, a geometry and a supported type. *)
Definition to_model (f : GeoFeature) : option Feature :=
  match gf_id f, gf_geometry f with
  | Some i, Some g =>
      if i =? "" then None
      else match featureTypes (g_type g) with
           | Some m => Some (mkFeature i (g_type g) (gf_properties f) (g_coordinates g) m)
           | None => None
           end
  | _, _ => None
  end.

(** The feature has an [id] member that is not falsy. *)
Definition has_own_id (f : GeoFeature) : Prop :=
  exists i, gf_id f = Some i /\ i <> "".

(** The geometry of the feature, when it has one, is not of the type
    ["constructor"]: the one name outside the six variants under which the
    lookup of api.js line 76 finds something that line 80 can call. *)
Definition not_constructor (f : GeoFeature) : Prop :=
  forall g, gf_geometry f = Some g -> g_type g <> "constructor".

(** The store [set] leaves when it ingests the models [ms] into [s]. *)
Definition set_store (ms : list Feature) (s : Store) : Store :=
  let toDelete := filter (fun i => negb (mem i (map id ms))) (store_getAllIds s) in
  with_batch false (store_delete toDelete (store_add_all ms s)).

(** Idempotence of [set]: a second call with the same collection returns
    the ids of the first and leaves the store of the first. *)
Definition set_idempotent (X : GeoJSON) (c : Ctx) : Prop :=
  forall ids1 c1 ids2 c2,
    api_set X c = Returned ids1 c1 ->
    api_set X c1 = Returned ids2 c2 ->
    ids2 = ids1 /\ store c2 = store c1.

(** The composite [mergeSelectedFeatures] builds from the resolved features
    [fs], of which [first] is the first (api.js lines 176-196). *)
Definition merged_feature (first : Feature) (fs : list Feature) (c : Ctx) : Feature :=
  mkFeature (hat_ids (hatCount c)) ("Multi" ++ type first) []
    (CArr (map coordinates (filter (same_type (type first)) fs))) MultiFeature.

(** The next [k] ids of the generator differ from each other and from the
    ids in the store. *)
Definition fresh_ids (k : nat) (c : Ctx) : Prop :=
  NoDup (map hat_ids (seq (hatCount c) k)) /\
  forall i, In i (map hat_ids (seq (hatCount c) k)) ->
            ~ In i (store_getAllIds (store c)).

(** Induction on coordinate data, through the nested lists. *)
Fixpoint Coords_nested_ind (P : Coords -> Prop)
    (Hnum : forall n, P (CNum n))
    (Harr : forall items, Forall P items -> P (CArr items))
    (c : Coords) {struct c} : P c :=
  match c with
  | CNum n => Hnum n
  | CArr items =>
      Harr items
        ((fix all (l : list Coords) : Forall P l :=
            match l with
            | [] => Forall_nil P
            | x :: l' => Forall_cons x (Coords_nested_ind P Hnum Harr x) (all l')
            end) items)
  end.

(** *** Sample data *)

(** A validator with nothing to report, as on the well-formed collections
    below; RFC 7946 section 3.2 allows a Feature whose geometry is null,
    which is what the guard of api.js line 70 is for. *)
Definition no_issues : GeoJSON -> list HintIssue := fun _ => [].

(** A generator that hands out ["hat0"], ["hat1"], ... *)
Definition numbered_ids (n : nat) : string :=
  "hat" ++ NilEmpty.string_of_uint (Nat.to_uint n).

Definition empty_ctx : Ctx := mkCtx (mkStore [] [] false) SIMPLE_SELECT None [] 0.

Definition point (i : option string) (x y : Z) : GeoFeature :=
  mkGeoFeature i [] (Some (mkGeometry "Point" (CArr [CNum x; CNum y]))).

Definition line (i : option string) (x y : Z) : GeoFeature :=
  mkGeoFeature i []
    (Some (mkGeometry "LineString" (CArr [CArr [CNum x; CNum x]; CArr [CNum y; CNum y]]))).

(** A point with id ["a"], then a feature with id ["b"] and [geometry:
    null]. *)
Definition point_then_null : GeoJSON :=
  FeatureCollection [point (Some "a") 1 2; mkGeoFeature (Some "b") [] None].

Definition point_a : Feature :=
  mkFeature "a" "Point" [] (CArr [CNum 1; CNum 2]) SinglePart.

(** The context at the throw of [add point_then_null] in [empty_ctx]. *)
Definition point_a_ctx : Ctx :=
  mkCtx (mkStore [point_a] [] false) SIMPLE_SELECT None [] 0.

Definition line_a : Feature :=
  mkFeature "a" "LineString" [] (CArr [CArr [CNum 0; CNum 0]; CArr [CNum 1; CNum 1]])
    SinglePart.

Definition line_b : Feature :=
  mkFeature "b" "LineString" [] (CArr [CArr [CNum 2; CNum 2]; CArr [CNum 3; CNum 3]])
    SinglePart.

(** The store of the second scenario of spec section 8: two LineStrings. *)
Definition two_lines_ctx : Ctx :=
  mkCtx (mkStore [line_a; line_b] [] false) SIMPLE_SELECT None [] 0.

Definition two_lines : GeoJSON :=
  FeatureCollection [line (Some "a") 0 1; line (Some "b") 2 3].

(** [two_lines_ctx] after a render, the context [set two_lines] leaves. *)
Definition two_lines_set_ctx : Ctx :=
  mkCtx (mkStore [line_a; line_b] [] false) SIMPLE_SELECT None [Render] 0.

(** Direct-select on the one selected feature ["a"]. *)
Definition direct_select_ctx : Ctx :=
  mkCtx (mkStore [line_a; line_b] ["a"] false) DIRECT_SELECT
        (Some (mkModeOptions None (Some "a"))) [] 0.

(** Simple-select with ["a"] selected. *)
Definition simple_select_ctx : Ctx :=
  mkCtx (mkStore [line_a; line_b] ["a"] false) SIMPLE_SELECT None [] 0.

(** *** Vocabulary of the further properties *)

(** The context an outcome carries, returned or thrown. *)
Definition outcome_ctx {A} (o : Outcome A) : Ctx :=
  match o with
  | Returned _ c => c
  | Thrown _ c => c
  end.

(** C4 as the spec states it: whenever the ids of a merge, two or more, all
    resolve, the store holds after the call a feature of type ["Multi"]
    followed by the type of the first, with the coordinates of the inputs
    of that type in order, and with no properties. *)
Definition merge_builds_composite (ids : list string) (c : Ctx) : Prop :=
  forall first rest,
    resolve ids (store c) = map Some (first :: rest) -> rest <> [] ->
    exists merged,
      In merged (features (store (outcome_ctx (api_mergeSelectedFeatures (Some ids) c)))) /\
      type merged = ("Multi" ++ type first)%string /\
      coordinates merged
      = CArr (map coordinates (filter (same_type (type first)) (first :: rest))) /\
      properties merged = [].

(** [s'] has the ids of [s] in their order, then possibly new ids; its
    selection and its render batch are those of [s]. *)
Definition store_grows (s s' : Store) : Prop :=
  (exists new, store_getAllIds s' = store_getAllIds s ++ new) /\
  selectedIds s' = selectedIds s /\
  batchOpen s' = batchOpen s /\
  (NoDup (store_getAllIds s) -> NoDup (store_getAllIds s')).

(** From [c] to [c'] the store has only grown, and the mode, its options and
    the effects are the same. *)
Definition ingests (c c' : Ctx) : Prop :=
  store_grows (store c) (store c') /\
  currentMode c' = currentMode c /\
  currentModeOptions c' = currentModeOptions c /\
  effects c' = effects c.

(** Spec section 3: one feature per id, and every selected id is stored. *)
Definition store_inv (s : Store) : Prop :=
  NoDup (store_getAllIds s) /\ selection_valid s.

(** The id [add] returns for a feature: its own id when it has one. *)
Definition id_assigned (f : GeoFeature) (i : string) : Prop :=
  match gf_id f with
  | Some s => if s =? "" then exists n, i = hat_ids n else i = s
  | None => exists n, i = hat_ids n
  end.

(** The context in which [set] runs [add]: the render batch is open. *)
Definition batch_opened (c : Ctx) : Ctx := with_store (with_batch true (store c)) c.

(** The context [set] returns in, from the context [c] it was called in, the
    ids [ids] that [add] returned and the context [c1] that [add] left
    (api.js lines 50-55). *)
Definition set_closed (ids : list string) (c c1 : Ctx) : Ctx :=
  let toDelete := filter (fun i => negb (mem i ids)) (store_getAllIds (store c)) in
  let d := with_store (store_delete toDelete (store c1)) c1 in
  let cd :=
    if (0 <? length toDelete)%nat
    then if Mode_eqb (currentMode c1) DIRECT_SELECT
            && (length (selectedIds (store d)) =? 0)%nat
         then forced_to_simple_select d else d
    else c1 in
  emit Render (with_store (with_batch false (store cd)) cd).

(** A validator that reports a note of level ['message'], then two errors. *)
Definition note_then_errors : GeoJSON -> list HintIssue :=
  fun _ => [mkHintIssue (Some "message") "a note";
            mkHintIssue None "first error";
            mkHintIssue None "second error"].

(** [two_lines_ctx] with the render batch that [set] opens. *)
Definition two_lines_batch_ctx : Ctx :=
  mkCtx (mkStore [line_a; line_b] [] true) SIMPLE_SELECT None [] 0.

(** The context at the throw of [set point_then_null] in [empty_ctx]: the
    point is stored and the render batch is open. *)
Definition point_a_batch_ctx : Ctx :=
  mkCtx (mkStore [point_a] [] true) SIMPLE_SELECT None [] 0.

Definition multi_ab : Feature :=
  mkFeature "m" "MultiLineString" [("name", JStr "ab")]
    (CArr [coordinates line_a; coordinates line_b]) MultiFeature.

(** A store with the composite ["m"] and the line ["a"]. *)
Definition composite_ctx : Ctx :=
  mkCtx (mkStore [multi_ab; line_a] [] false) SIMPLE_SELECT None [] 0.

(** ** Properties *)

(** *** Running the loops *)

Ltac js_unfold :=
  unfold bind, ret, throw, gets, modify,
    ctx_store_get, ctx_store_add, ctx_store_delete, ctx_store_mutate,
    ctx_store_setSelected, ctx_store_render, ctx_store_createRenderBatch,
    renderBatch_close, ctx_events_getMode, ctx_events_changeMode,
    ctx_map_fire, api_getMode, api_getSelectedIds.

Lemma bind_returned {A B} (m : Js A) (k : A -> Js B) (c c' : Ctx) (a : A) :
  m c = Returned a c' -> bind m k c = k a c'.
Proof. intro H. unfold bind. now rewrite H. Qed.

Lemma bind_thrown {A B} (m : Js A) (k : A -> Js B) (c c' : Ctx) (e : Error) :
  m c = Thrown e c' -> bind m k c = Thrown e c'.
Proof. intro H. unfold bind. now rewrite H. Qed.

Lemma mapM_ctx_store_get (ids : list string) (c : Ctx) :
  mapM ctx_store_get ids c = Returned (resolve ids (store c)) c.
Proof.
  induction ids as [|i ids IH]; simpl; [reflexivity|].
  erewrite bind_returned by reflexivity.
  erewrite bind_returned by apply IH. reflexivity.
Qed.

Lemma foldM_app {A B} (f : B -> A -> Js B) (l1 l2 : list A) (b : B) (c : Ctx) :
  foldM f (l1 ++ l2) b c = bind (foldM f l1 b) (foldM f l2) c.
Proof.
  revert b c. induction l1 as [|x l1 IH]; intros b c; simpl.
  - reflexivity.
  - unfold bind in *. destruct (f b x c); [apply IH | reflexivity].
Qed.

Lemma resolve_app (l1 l2 : list string) (s : Store) :
  resolve (l1 ++ l2) s = resolve l1 s ++ resolve l2 s.
Proof. apply map_app. Qed.

Lemma resolve_length (ids : list string) (s : Store) :
  length (resolve ids s) = length ids.
Proof. apply length_map. Qed.

Lemma bump_0 (c : Ctx) : bump 0 c = c.
Proof. destruct c; reflexivity. Qed.

Lemma new_model_fresh (m : Model) (p : Props) (g : Geometry) (c : Ctx) :
  (m = MultiFeature -> featureTypes (g_type g) = Some MultiFeature) ->
  new_model m None p g c
  = Returned (mkFeature (hat_ids (hatCount c)) (g_type g) p (g_coordinates g) m) (bump 1 c).
Proof.
  intro H. unfold new_model. erewrite bind_returned by reflexivity.
  destruct m; [reflexivity|]. now rewrite H.
Qed.

Lemma new_model_given (m : Model) (i : string) (p : Props) (g : Geometry) (c : Ctx) :
  i <> "" ->
  (m = MultiFeature -> featureTypes (g_type g) = Some MultiFeature) ->
  new_model m (Some i) p g c
  = Returned (mkFeature i (g_type g) p (g_coordinates g) m) c.
Proof.
  intros H Hm. unfold new_model, id_or_hat.
  destruct (String.eqb_spec i ""); [contradiction|].
  erewrite bind_returned by reflexivity.
  destruct m; [reflexivity|]. now rewrite Hm.
Qed.

Lemma mapM_new_parts (t : string) (cs : list Coords) (c : Ctx) :
  mapM (fun x => new_model SinglePart None [] (mkGeometry t x)) cs c
  = Returned (fresh_parts t (hatCount c) cs) (bump (length cs) c).
Proof.
  revert c. induction cs as [|x cs IH]; intro c; simpl.
  - unfold ret. now rewrite bump_0.
  - erewrite bind_returned by (apply new_model_fresh; discriminate).
    erewrite bind_returned by apply IH.
    unfold ret, bump. simpl. do 2 f_equal. lia.
Qed.

Lemma getFeatures_run (f : Feature) (c : Ctx) :
  getFeatures f c
  = Returned (fresh_parts (baseType (type f)) (hatCount c) (parts_of (coordinates f)))
             (bump (length (parts_of (coordinates f))) c).
Proof. unfold getFeatures. apply mapM_new_parts. Qed.

Lemma add_subFeatures_run (subs : list Feature) (acc : list GeoFeature) (c : Ctx) :
  foldM (fun acc subFeature =>
           ctx_store_add subFeature ;; ret (acc ++ [toGeoJSON subFeature])) subs acc c
  = Returned (acc ++ map toGeoJSON subs) (with_store (store_add_all subs (store c)) c).
Proof.
  revert acc c. induction subs as [|f subs IH]; intros acc c; simpl.
  - unfold ret. rewrite app_nil_r. destruct c; reflexivity.
  - erewrite bind_returned by reflexivity.
    rewrite IH. simpl. rewrite <- app_assoc. destruct c; reflexivity.
Qed.

Lemma split_feature_composite (f : Feature) (acc : list GeoFeature) (c : Ctx) :
  model f = MultiFeature ->
  split_feature acc (Some f) c
  = Returned (acc ++ map toGeoJSON
                (fresh_parts (baseType (type f)) (hatCount c) (parts_of (coordinates f))))
             (split_composite f c).
Proof.
  intro Hm. unfold split_feature, instanceof_MultiFeature. rewrite Hm. simpl.
  erewrite bind_returned by apply getFeatures_run.
  erewrite bind_returned by apply add_subFeatures_run.
  js_unfold. unfold split_composite, rendered. simpl.
  destruct c as [[fs sel b] m o e h]; simpl.
  destruct b; reflexivity.
Qed.

Lemma split_feature_skip (o : option Feature) (acc : list GeoFeature) (c : Ctx) :
  instanceof_MultiFeature o = false ->
  split_feature acc o c = Returned acc c.
Proof.
  intro H. unfold split_feature. destruct o as [f|]; [|reflexivity].
  rewrite H. reflexivity.
Qed.

Lemma instanceof_true (o : option Feature) :
  instanceof_MultiFeature o = true -> exists f, o = Some f /\ model f = MultiFeature.
Proof.
  destruct o as [f|]; simpl; [|discriminate].
  intro H. exists f. split; [reflexivity|]. destruct (model f); [discriminate|reflexivity].
Qed.

Lemma only_renders_refl (c : Ctx) : only_renders c c.
Proof. exists 0. simpl. now rewrite app_nil_r. Qed.

Lemma only_renders_trans (c1 c2 c3 : Ctx) :
  only_renders c1 c2 -> only_renders c2 c3 -> only_renders c1 c3.
Proof.
  intros [k1 H1] [k2 H2]. exists (k1 + k2).
  rewrite H2, H1, repeat_app, app_assoc. reflexivity.
Qed.

Lemma split_composite_only_renders (f : Feature) (c : Ctx) :
  only_renders c (split_composite f c).
Proof.
  unfold split_composite, rendered. simpl.
  match goal with |- context [if ?b then _ else _] => destruct b end.
  - exists 0. simpl. now rewrite app_nil_r.
  - exists 1. reflexivity.
Qed.

(** The loop of [splitSelectedFeatures] never throws, and all it sends is
    render requests. *)
Lemma split_loop_returns (l : list (option Feature)) (acc : list GeoFeature) (c : Ctx) :
  exists created c',
    foldM split_feature l acc c = Returned created c' /\ only_renders c c'.
Proof.
  revert acc c. induction l as [|o l IH]; intros acc c; simpl.
  - exists acc, c. split; [reflexivity | apply only_renders_refl].
  - unfold bind. destruct (instanceof_MultiFeature o) eqn:Hi.
    + apply instanceof_true in Hi. destruct Hi as [f [-> Hm]].
      rewrite (split_feature_composite f acc c Hm).
      destruct (IH (acc ++ map toGeoJSON
                      (fresh_parts (baseType (type f)) (hatCount c) (parts_of (coordinates f))))
                   (split_composite f c)) as [created [c' [E R]]].
      exists created, c'. split; [exact E|].
      eapply only_renders_trans; [apply split_composite_only_renders | exact R].
    + rewrite (split_feature_skip o acc c Hi). apply IH.
Qed.

Lemma split_loop_skip_all (l : list (option Feature)) (acc : list GeoFeature) (c : Ctx) :
  forallb (fun o => negb (instanceof_MultiFeature o)) l = true ->
  foldM split_feature l acc c = Returned acc c.
Proof.
  revert acc c. induction l as [|o l IH]; intros acc c H; simpl in *.
  - reflexivity.
  - apply andb_true_iff in H. destruct H as [H1 H2].
    apply negb_true_iff in H1.
    unfold bind. rewrite (split_feature_skip o acc c H1). now apply IH.
Qed.

(** *** mergeSelectedFeatures *)

(** The first loop of the merge over resolved features: it reads, and
    throws at the first [undefined]. *)
Lemma merge_loop_resolved (t : string) (fs : list Feature)
    (acc : list Coords * list string) (c : Ctx) :
  foldM (merge_collect t) (map Some fs) acc c
  = Returned (fst acc ++ map coordinates (filter (same_type t) fs),
              snd acc ++ map id (filter (same_type t) fs)) c.
Proof.
  revert acc. induction fs as [|f fs IH]; intro acc; simpl.
  - unfold ret. rewrite !app_nil_r. now destruct acc.
  - unfold merge_collect at 1.
    change (same_type t f) with (type f =? t).
    destruct (type f =? t); simpl.
    + erewrite bind_returned by reflexivity. rewrite IH. simpl.
      rewrite <- !app_assoc. reflexivity.
    + erewrite bind_returned by reflexivity. apply IH.
Qed.

Lemma merge_loop_dead (t : string) (l : list (option Feature))
    (acc : list Coords * list string) (c : Ctx) :
  In None l -> foldM (merge_collect t) l acc c = Thrown TypeError c.
Proof.
  revert acc. induction l as [|o l IH]; intros acc H; [destruct H|].
  simpl. destruct o as [f|].
  - destruct H as [H|H]; [discriminate|].
    unfold merge_collect at 1.
    destruct (negb (type f =? t)); erewrite bind_returned by reflexivity; now apply IH.
  - reflexivity.
Qed.

(** With two or more ids of which one resolves to no feature, the merge
    throws a TypeError, before any mutation. *)
Lemma merge_throws_on_dead_id (ids : list string) (c : Ctx) :
  2 <= length ids ->
  In None (resolve ids (store c)) ->
  api_mergeSelectedFeatures (Some ids) c = Thrown TypeError c.
Proof.
  intros Hlen Hdead. unfold api_mergeSelectedFeatures.
  destruct (Nat.ltb_spec (length ids) 2) as [Hlt|_]; [lia|].
  erewrite bind_returned by apply mapM_ctx_store_get.
  rewrite resolve_length.
  destruct (Nat.ltb_spec (length ids) 2) as [Hlt|_]; [lia|].
  destruct (resolve ids (store c)) as [|o l] eqn:E; [destruct Hdead|].
  destruct o as [first|]; cbn [hd]; [|reflexivity].
  erewrite bind_thrown; [reflexivity|].
  now apply merge_loop_dead.
Qed.

Lemma batchOpen_store_add (f : Feature) (s : Store) :
  batchOpen (store_add f s) = batchOpen s.
Proof. unfold store_add. destruct (store_get (id f) s); reflexivity. Qed.

Lemma batchOpen_store_delete (ids : list string) (s : Store) :
  batchOpen (store_delete ids s) = batchOpen s.
Proof. reflexivity. Qed.

Lemma store_rendered (c : Ctx) : store (rendered c) = store c.
Proof. unfold rendered. destruct (batchOpen (store c)); reflexivity. Qed.

Lemma merge_commit (m : Feature) (ids : list string) (c : Ctx) :
  (ctx_store_add m ;; ctx_store_delete ids false ;;
   ctx_map_fire CREATE [toGeoJSON m] ;; ret api) c
  = Returned api
      (emit (Fire CREATE [toGeoJSON m])
         (rendered (with_store (store_delete ids (store_add m (store c))) c))).
Proof. reflexivity. Qed.

(** C6: with the two ids ["x"] and ["y"], neither of which is in the empty
    store, [mergeSelectedFeatures] is not a silent no-op: it throws a
    TypeError (reading [.type] of [undefined], api.js line 176). *)
Theorem C6_merge_of_dead_ids_throws :
  let c := mkCtx (mkStore [] [] false) SIMPLE_SELECT None [] 0 in
  api_mergeSelectedFeatures (Some ["x"; "y"]) c = Thrown TypeError c.
Proof. reflexivity. Qed.

(** C8: on their guard paths the two operations return [undefined], not the
    api object: [mergeSelectedFeatures] for a falsy argument and for fewer
    than two ids, [splitSelectedFeatures] for a falsy argument (api.js lines
    168 and 209). *)
Theorem C8_guard_paths_return_undefined (c : Ctx) :
  api_mergeSelectedFeatures None c = Returned undefined c /\
  api_mergeSelectedFeatures (Some []) c = Returned undefined c /\
  (forall i, api_mergeSelectedFeatures (Some [i]) c = Returned undefined c) /\
  api_splitSelectedFeatures None c = Returned undefined c.
Proof. repeat split. Qed.

Lemma Multi_of_single (t : string) :
  featureTypes t = Some SinglePart -> featureTypes ("Multi" ++ t) = Some MultiFeature.
Proof.
  unfold featureTypes at 1.
  destruct (String.eqb_spec t "Polygon") as [->|_]; [reflexivity|].
  destruct (String.eqb_spec t "LineString") as [->|_]; [reflexivity|].
  destruct (String.eqb_spec t "Point") as [->|_]; [reflexivity|].
  destruct (t =? "MultiPolygon"); [discriminate|].
  destruct (t =? "MultiLineString"); [discriminate|].
  destruct (t =? "MultiPoint"); discriminate.
Qed.

(** The composite type is supported exactly when its base is one of the
    three single-part types. *)
Lemma Multi_supported (t : string) :
  featureTypes ("Multi" ++ t) = Some MultiFeature <-> featureTypes t = Some SinglePart.
Proof.
  split; [|apply Multi_of_single].
  unfold featureTypes. cbn [append String.eqb Ascii.eqb Bool.eqb].
  destruct (t =? "Polygon"); [reflexivity|].
  destruct (t =? "LineString"); [reflexivity|].
  destruct (t =? "Point"); [reflexivity|]. discriminate.
Qed.

(** A merge whose composite would have an unsupported type tag: the
    constructor of the composite throws, after it has drawn the id and
    before anything is stored. *)
Lemma merge_run_unsupported (ids : list string) (c : Ctx) (first : Feature)
    (rest : list Feature) :
  resolve ids (store c) = map Some (first :: rest) ->
  rest <> [] ->
  featureTypes ("Multi" ++ type first) <> Some MultiFeature ->
  api_mergeSelectedFeatures (Some ids) c = Thrown TypeError (bump 1 c).
Proof.
  intros Hres Hrest Hun.
  assert (Hlen : 2 <= length ids).
  { rewrite <- (resolve_length ids (store c)), Hres, length_map.
    destruct rest; [contradiction | simpl; lia]. }
  unfold api_mergeSelectedFeatures.
  destruct (Nat.ltb_spec (length ids) 2) as [Hlt|_]; [lia|].
  erewrite bind_returned by apply mapM_ctx_store_get.
  rewrite resolve_length.
  destruct (Nat.ltb_spec (length ids) 2) as [Hlt|_]; [lia|].
  rewrite Hres. cbn [hd map].
  erewrite bind_returned by apply (merge_loop_resolved (type first) (first :: rest)).
  erewrite bind_thrown; [reflexivity|].
  unfold new_model. erewrite bind_returned by reflexivity.
  cbn [g_type] in *.
  destruct (featureTypes ("Multi" ++ type first)) as [[|]|]; try reflexivity.
  now elim Hun.
Qed.

(** The composite a merge builds from the resolved features [fs], the
    first of which is [first]. *)
Lemma merge_run (ids : list string) (c : Ctx) (first : Feature) (rest : list Feature) :
  resolve ids (store c) = map Some (first :: rest) ->
  rest <> [] ->
  featureTypes ("Multi" ++ type first) = Some MultiFeature ->
  api_mergeSelectedFeatures (Some ids) c
  = Returned api
      (emit (Fire CREATE [toGeoJSON (merged_feature first (first :: rest) c)])
         (rendered
            (with_store
               (store_delete ids
                  (store_add (merged_feature first (first :: rest) c) (store c)))
               (bump 1 c)))).
Proof.
  intros Hres Hrest Hsup.
  assert (Hlen : 2 <= length ids).
  { rewrite <- (resolve_length ids (store c)), Hres, length_map.
    destruct rest; [contradiction | simpl; lia]. }
  unfold api_mergeSelectedFeatures.
  destruct (Nat.ltb_spec (length ids) 2) as [Hlt|_]; [lia|].
  erewrite bind_returned by apply mapM_ctx_store_get.
  rewrite resolve_length.
  destruct (Nat.ltb_spec (length ids) 2) as [Hlt|_]; [lia|].
  rewrite Hres. cbn [hd map].
  erewrite bind_returned by apply (merge_loop_resolved (type first) (first :: rest)).
  erewrite bind_returned by (apply new_model_fresh; intros _; exact Hsup).
  cbn [fst g_type g_coordinates app].
  rewrite merge_commit. reflexivity.
Qed.

(** C4, as the code has it: a merge of two or more ids that all resolve,
    the first to a feature of a single-part type (Point, LineString or
    Polygon), adds one feature: its type is ["Multi"] followed by that
    type, its coordinates are the coordinates, in order, of the inputs of
    that type, and it has no properties.  The store then loses the input
    ids and one creation event carries the new feature.  When the first
    feature is of another type (a composite), the composite type is
    unsupported: the call throws a TypeError and adds nothing. *)
Theorem C4_merge_builds_composite (ids : list string) (c : Ctx)
    (first : Feature) (rest : list Feature) :
  resolve ids (store c) = map Some (first :: rest) ->
  rest <> [] ->
  let merged :=
    mkFeature (hat_ids (hatCount c)) ("Multi" ++ type first) []
      (CArr (map coordinates (filter (same_type (type first)) (first :: rest))))
      MultiFeature in
  (featureTypes (type first) = Some SinglePart ->
   exists c',
     api_mergeSelectedFeatures (Some ids) c = Returned api c' /\
     store c' = store_delete ids (store_add merged (store c)) /\
     effects c' = effects (rendered c) ++ [Fire CREATE [toGeoJSON merged]]) /\
  (featureTypes (type first) <> Some SinglePart ->
   exists c',
     api_mergeSelectedFeatures (Some ids) c = Thrown TypeError c' /\
     store c' = store c /\ effects c' = effects c).
Proof.
  intros Hres Hrest merged. split.
  - intro Hsingle.
    rewrite (merge_run ids c first rest Hres Hrest (Multi_of_single _ Hsingle)).
    change (merged_feature first (first :: rest) c) with merged.
    eexists. split; [reflexivity|].
    cbn [store emit effects]. rewrite store_rendered. split; [reflexivity|].
    unfold rendered. cbn [with_store store].
    rewrite batchOpen_store_delete, batchOpen_store_add.
    change (store (bump 1 c)) with (store c).
    destruct (batchOpen (store c)); reflexivity.
  - intro Hother. exists (bump 1 c). split; [|split; reflexivity].
    apply (merge_run_unsupported ids c first rest Hres Hrest).
    intro Hsup. apply Hother. now apply Multi_supported.
Qed.

(** *** splitSelectedFeatures *)

Lemma creations_app (l1 l2 : list Effect) :
  creations (l1 ++ l2) = creations l1 ++ creations l2.
Proof. apply flat_map_app. Qed.

Lemma creations_renders (k : nat) : creations (repeat Render k) = [].
Proof. induction k; simpl; auto. Qed.

Lemma split_loop_drop (l1 l2 : list (option Feature)) (o : option Feature)
    (acc : list GeoFeature) (c : Ctx) :
  instanceof_MultiFeature o = false ->
  foldM split_feature (l1 ++ o :: l2) acc c = foldM split_feature (l1 ++ l2) acc c.
Proof.
  intro H. rewrite !foldM_app.
  destruct (foldM split_feature l1 acc c) as [acc1 c1|] eqn:E.
  - rewrite !(bind_returned _ _ _ _ _ E). simpl.
    erewrite bind_returned by (apply split_feature_skip; exact H).
    reflexivity.
  - now rewrite !(bind_thrown _ _ _ _ _ E).
Qed.

Lemma split_run (ids : list string) (c : Ctx) :
  exists created c1,
    foldM split_feature (resolve ids (store c)) [] c = Returned created c1 /\
    only_renders c c1 /\
    api_splitSelectedFeatures (Some ids) c
    = Returned api (emit (Fire CREATE created) c1).
Proof.
  destruct (split_loop_returns (resolve ids (store c)) [] c) as [created [c1 [E R]]].
  exists created, c1. repeat split; try assumption.
  unfold api_splitSelectedFeatures.
  erewrite bind_returned by apply mapM_ctx_store_get.
  erewrite bind_returned by apply E.
  reflexivity.
Qed.

(** C10: a split called with a list of ids, whatever they resolve to, fires
    exactly one creation notification; when no id resolves to a composite
    its feature list is empty. *)
Theorem C10_split_fires_one_creation (ids : list string) (c : Ctx) :
  exists created c',
    api_splitSelectedFeatures (Some ids) c = Returned api c' /\
    creations (effects c') = creations (effects c) ++ [created] /\
    ((forall i, In i ids -> instanceof_MultiFeature (store_get i (store c)) = false) ->
     created = [] /\ effects c' = effects c ++ [Fire CREATE []]).
Proof.
  destruct (split_run ids c) as [created [c1 [E [[k R] Hrun]]]].
  exists created, (emit (Fire CREATE created) c1).
  split; [exact Hrun|]. split.
  - simpl. rewrite R, !creations_app, creations_renders. simpl.
    now rewrite app_nil_r.
  - intro Hnone.
    rewrite split_loop_skip_all in E.
    + injection E as <- <-. split; reflexivity.
    + unfold resolve. rewrite forallb_forall. intros o Ho.
      apply in_map_iff in Ho. destruct Ho as [i [<- Hi]].
      now rewrite (Hnone i Hi).
Qed.

(** C9: an id that resolves to no stored feature is skipped by the split
    exactly as the id of a non-composite feature is: the call returns the
    api object with or without that id in the list, and its outcome (store,
    effects, generated ids) is that of the list without the id. *)
Theorem C9_split_skips_dead_id (pre post : list string) (i : string) (c : Ctx) :
  store_get i (store c) = None \/
  (exists f, store_get i (store c) = Some f /\ model f = SinglePart) ->
  api_splitSelectedFeatures (Some (pre ++ i :: post)) c
  = api_splitSelectedFeatures (Some (pre ++ post)) c /\
  exists c', api_splitSelectedFeatures (Some (pre ++ i :: post)) c = Returned api c'.
Proof.
  intro H.
  assert (Hskip : instanceof_MultiFeature (store_get i (store c)) = false).
  { destruct H as [-> | [f [-> Hm]]]; [reflexivity|]. simpl. now rewrite Hm. }
  split.
  - unfold api_splitSelectedFeatures.
    rewrite (bind_returned _ _ _ _ _ (mapM_ctx_store_get (pre ++ i :: post) c)).
    rewrite (bind_returned _ _ _ _ _ (mapM_ctx_store_get (pre ++ post) c)).
    rewrite !resolve_app. cbn [resolve map]. fold (resolve post (store c)).
    unfold bind. now rewrite split_loop_drop.
  - destruct (split_run (pre ++ i :: post) c) as [created [c1 [_ [_ Hrun]]]].
    eexists. exact Hrun.
Qed.

(** *** delete, deleteAll and changeMode *)

Lemma mem_In (i : string) (l : list string) : mem i l = true <-> In i l.
Proof.
  unfold mem. rewrite existsb_exists. split.
  - intros [j [Hj E]]. apply String.eqb_eq in E. now subst.
  - intro H. exists i. split; [exact H | apply String.eqb_refl].
Qed.

Lemma mem_false (i : string) (l : list string) : mem i l = false <-> ~ In i l.
Proof.
  rewrite <- mem_In. destruct (mem i l); split; intro H; try reflexivity;
    try discriminate; try (intro; discriminate). now elim H.
Qed.

Lemma Mode_eqb_eq (a b : Mode) : Mode_eqb a b = true <-> a = b.
Proof.
  destruct a as [| |v], b as [| |w]; simpl; split; intro H; try reflexivity;
    try discriminate.
  - destruct v, w; try discriminate; reflexivity.
  - injection H as ->. now destruct w.
Qed.

Lemma stringSetsAreEqual_spec (a b : list string) :
  stringSetsAreEqual a b = true <-> same_ids a b.
Proof.
  unfold stringSetsAreEqual, same_ids.
  rewrite andb_true_iff, !forallb_forall. split.
  - intros [H1 H2] i. split; intro H.
    + apply mem_In. now apply H1.
    + apply mem_In. now apply H2.
  - intro H. split; intros i Hi; apply mem_In; now apply H.
Qed.

Lemma delete_all_empties_selection (s : Store) :
  selection_valid s ->
  selectedIds (store_delete (store_getAllIds s) s) = [].
Proof.
  unfold selection_valid, store_delete. cbn [selectedIds].
  generalize (store_getAllIds s) as all. intro all.
  induction (selectedIds s) as [|i sel IH]; intro Hv; [reflexivity|].
  simpl. assert (Hi : mem i all = true).
  { apply mem_In. apply Hv. now left. }
  rewrite Hi. simpl. apply IH. intros j Hj. apply Hv. now right.
Qed.

Lemma api_delete_run (ids : list string) (c : Ctx) :
  let d := with_store (store_delete ids (store c)) c in
  api_delete ids c
  = Returned api
      (if Mode_eqb (currentMode c) DIRECT_SELECT
          && (length (selectedIds (store d)) =? 0)%nat
       then forced_to_simple_select d else rendered d).
Proof.
  intro d. unfold api_delete.
  rewrite (bind_returned _ _ c d tt) by reflexivity.
  rewrite (bind_returned _ _ d d (currentMode c)) by reflexivity.
  rewrite (bind_returned _ _ d d (selectedIds (store d))) by reflexivity.
  destruct (Mode_eqb (currentMode c) DIRECT_SELECT
            && (length (selectedIds (store d)) =? 0)%nat); reflexivity.
Qed.

Lemma api_deleteAll_run (c : Ctx) :
  let d := with_store (store_delete (store_getAllIds (store c)) (store c)) c in
  api_deleteAll c
  = Returned api
      (if Mode_eqb (currentMode c) DIRECT_SELECT
       then forced_to_simple_select d else rendered d).
Proof.
  intro d. unfold api_deleteAll.
  rewrite (bind_returned _ _ c c (store_getAllIds (store c))) by reflexivity.
  rewrite (bind_returned _ _ c d tt) by reflexivity.
  rewrite (bind_returned _ _ d d (currentMode c)) by reflexivity.
  destruct (Mode_eqb (currentMode c) DIRECT_SELECT); reflexivity.
Qed.

Lemma length_zero (l : list string) : (length l =? 0)%nat = true <-> l = [].
Proof. destruct l; simpl; split; intro H; try reflexivity; discriminate. Qed.

(** C3: after the deletion of [delete] or [deleteAll], if the controller
    is in direct-select and the selection is empty, the controller is
    forced to simple-select; in every other case the call requests a
    render.  In direct-select with the one selected feature [f],
    [delete([f])] ends in simple-select with an empty selection. *)
Theorem C3_delete_escapes_direct_select (ids : list string) (c : Ctx) :
  selection_valid (store c) ->
  let d := with_store (store_delete ids (store c)) c in
  let dAll := with_store (store_delete (store_getAllIds (store c)) (store c)) c in
  (currentMode c = DIRECT_SELECT /\ selectedIds (store d) = [] ->
   api_delete ids c = Returned api (forced_to_simple_select d)) /\
  (~ (currentMode c = DIRECT_SELECT /\ selectedIds (store d) = []) ->
   api_delete ids c = Returned api (rendered d)) /\
  (currentMode c = DIRECT_SELECT /\ selectedIds (store dAll) = [] ->
   api_deleteAll c = Returned api (forced_to_simple_select dAll)) /\
  (~ (currentMode c = DIRECT_SELECT /\ selectedIds (store dAll) = []) ->
   api_deleteAll c = Returned api (rendered dAll)) /\
  (forall f, currentMode c = DIRECT_SELECT -> selectedIds (store c) = [f] ->
   exists c', api_delete [f] c = Returned api c' /\
              currentMode c' = SIMPLE_SELECT /\ selectedIds (store c') = []).
Proof.
  intros Hv d dAll. repeat split.
  - intros [Hm Hs]. rewrite api_delete_run. fold d.
    apply Mode_eqb_eq in Hm. apply length_zero in Hs. now rewrite Hm, Hs.
  - intro Hn. rewrite api_delete_run. fold d.
    destruct (Mode_eqb (currentMode c) DIRECT_SELECT) eqn:Hm;
      [|reflexivity].
    destruct (length (selectedIds (store d)) =? 0)%nat eqn:Hs; [|reflexivity].
    elim Hn. split; [now apply Mode_eqb_eq | now apply length_zero].
  - intros [Hm _]. rewrite api_deleteAll_run. fold dAll.
    apply Mode_eqb_eq in Hm. now rewrite Hm.
  - intro Hn. rewrite api_deleteAll_run. fold dAll.
    destruct (Mode_eqb (currentMode c) DIRECT_SELECT) eqn:Hm; [|reflexivity].
    elim Hn. split; [now apply Mode_eqb_eq|].
    now apply delete_all_empties_selection.
  - intros f Hm Hs. rewrite api_delete_run.
    apply Mode_eqb_eq in Hm. rewrite Hm.
    assert (Hempty : selectedIds (store_delete [f] (store c)) = []).
    { cbn [store_delete selectedIds]. rewrite Hs. simpl.
      now rewrite String.eqb_refl. }
    cbn [with_store store]. rewrite Hempty. cbn [length Nat.eqb andb].
    eexists. split; [reflexivity|]. split; [reflexivity | exact Hempty].
Qed.

Lemma api_changeMode_simple_run (opts : option ModeOptions) (c : Ctx) :
  currentMode c = SIMPLE_SELECT ->
  let requested := featureIds (match opts with Some o => o | None => noOptions end) in
  api_changeMode SIMPLE_SELECT opts c
  = Returned api
      (if stringSetsAreEqual (ids_or_none requested) (selectedIds (store c))
       then c
       else rendered (with_store (store_setSelected requested (store c)) c)).
Proof.
  intros Hm requested. unfold api_changeMode.
  erewrite bind_returned by reflexivity.
  erewrite bind_returned by reflexivity.
  rewrite Hm. cbn [Mode_eqb andb]. fold requested.
  unfold store_getSelectedIds, ids_or_none.
  destruct (stringSetsAreEqual _ _); reflexivity.
Qed.

(** C7: a request for simple-select made in simple-select is a no-op when
    the requested ids are, as a set, the selected ids.  Otherwise the call
    sets the store's selection and requests a render: the mode and its
    options stay as they are and no mode transition is handed to the
    mode-change handler. *)
Theorem C7_reselect_in_simple_select (opts : option ModeOptions) (c : Ctx) :
  currentMode c = SIMPLE_SELECT ->
  let requested := featureIds (match opts with Some o => o | None => noOptions end) in
  (same_ids (ids_or_none requested) (selectedIds (store c)) ->
   api_changeMode SIMPLE_SELECT opts c = Returned api c) /\
  (~ same_ids (ids_or_none requested) (selectedIds (store c)) ->
   exists c',
     api_changeMode SIMPLE_SELECT opts c = Returned api c' /\
     store c' = store_setSelected requested (store c) /\
     currentMode c' = SIMPLE_SELECT /\
     currentModeOptions c' = currentModeOptions c /\
     effects c' = effects (rendered c)).
Proof.
  intros Hm requested. split; intro H.
  - rewrite (api_changeMode_simple_run opts c Hm). fold requested.
    apply stringSetsAreEqual_spec in H. now rewrite H.
  - rewrite (api_changeMode_simple_run opts c Hm). fold requested.
    destruct (stringSetsAreEqual (ids_or_none requested) (selectedIds (store c))) eqn:E.
    + elim H. now apply stringSetsAreEqual_spec.
    + eexists. split; [reflexivity|].
      unfold rendered. cbn [with_store store store_setSelected batchOpen].
      destruct (batchOpen (store c)); repeat split; assumption.
Qed.

(** *** add *)

Lemma mapM_thrown {A B} (f : A -> Js B) (l : list A) (c c' : Ctx) (e : Error) :
  mapM f l c = Thrown e c' ->
  exists pre x post ys c1,
    l = pre ++ x :: post /\
    mapM f pre c = Returned ys c1 /\
    f x c1 = Thrown e c'.
Proof.
  revert c. induction l as [|x l IH]; intros c H; simpl in H; [discriminate|].
  unfold bind at 1 in H. destruct (f x c) as [y c0|e0 c0] eqn:Ex.
  - unfold bind at 1 in H.
    destruct (mapM f l c0) as [ys c2|e2 c2] eqn:El; [discriminate|].
    injection H as -> ->.
    destruct (IH c0 El) as [pre [x' [post [ys [c1 [-> [Hpre Hx]]]]]]].
    exists (x :: pre), x', post, (y :: ys), c1. repeat split; [|exact Hx].
    simpl. erewrite bind_returned by exact Ex.
    erewrite bind_returned by exact Hpre. reflexivity.
  - injection H as -> ->.
    exists [], x, l, [], c. repeat split. exact Ex.
Qed.

Lemma id_or_hat_store (x : option string) (c : Ctx) :
  exists i c', id_or_hat x c = Returned i c' /\ store c' = store c.
Proof.
  unfold id_or_hat. destruct x as [s|]; [destruct (s =? "")|];
    eexists; eexists; split; reflexivity.
Qed.

Lemma featureTypes_get_Class (t : string) (m : Model) :
  featureTypes_get t = Some (Class m) <-> featureTypes t = Some m.
Proof.
  unfold featureTypes_get. destruct (featureTypes t) as [m'|].
  - split; intro H; injection H as ->; reflexivity.
  - split; [|discriminate].
    destruct (t =? "constructor"); [discriminate|].
    destruct (mem t Object_prototype); discriminate.
Qed.

Lemma new_model_returns (m : Model) (x : option string) (p : Props) (g : Geometry)
    (c : Ctx) :
  featureTypes (g_type g) = Some m ->
  exists nf c1, new_model m x p g c = Returned nf c1 /\ store c1 = store c.
Proof.
  intro Hm. unfold new_model. destruct (id_or_hat_store x c) as [i [c1 [E Hs]]].
  rewrite (bind_returned _ _ _ _ _ E).
  destruct m; [|rewrite Hm]; eexists; eexists; (split; [reflexivity | exact Hs]).
Qed.

Lemma create_feature_outcome (i : string) (f : GeoFeature) (g : Geometry) (c : Ctx) :
  (featureTypes_get (g_type g) = None /\
   create_feature i f g c = Thrown (Err ("Invalid geometry type: " ++ g_type g ++ ".")) c) \/
  (featureTypes_get (g_type g) = Some NotConstructor /\
   create_feature i f g c = Thrown TypeError c) \/
  (exists c1, create_feature i f g c = Returned tt c1).
Proof.
  unfold create_feature. destruct (featureTypes_get (g_type g)) as [[m| |]|] eqn:El.
  - right. right. apply featureTypes_get_Class in El.
    destruct (new_model_returns m (Some i) (gf_properties f) g c El) as [nf [c1 [E _]]].
    rewrite (bind_returned _ _ _ _ _ E). eexists. reflexivity.
  - right. right. eexists. reflexivity.
  - right. left. split; reflexivity.
  - left. split; reflexivity.
Qed.

Lemma update_feature_returns (ex : Feature) (f : GeoFeature) (g : Geometry) (c : Ctx) :
  exists c1, update_feature ex f g c = Returned tt c1.
Proof.
  unfold update_feature. erewrite bind_returned by reflexivity.
  destruct (negb _); eexists; reflexivity.
Qed.

(** A feature that makes the callback throw leaves the store as it is. *)
Lemma add_feature_thrown (f : GeoFeature) (c c' : Ctx) (e : Error) :
  add_feature f c = Thrown e c' ->
  store c' = store c /\
  (gf_geometry f = None /\ e = Err "Invalid geometry: null" \/
   exists g, gf_geometry f = Some g /\
             (featureTypes_get (g_type g) = None /\
              e = Err ("Invalid geometry type: " ++ g_type g ++ ".") \/
              featureTypes_get (g_type g) = Some NotConstructor /\ e = TypeError)).
Proof.
  unfold add_feature. intro H.
  destruct (id_or_hat_store (gf_id f) c) as [i [c0 [Ei Hs]]].
  rewrite (bind_returned _ _ _ _ _ Ei) in H.
  destruct (gf_geometry f) as [g|].
  - rewrite (bind_returned _ _ c0 c0 (store_get i (store c0))) in H by reflexivity.
    assert (Hcreate : bind (create_feature i f g) (fun _ => ret i) c0 = Thrown e c' ->
                      c' = c0 /\
                      (featureTypes_get (g_type g) = None /\
                       e = Err ("Invalid geometry type: " ++ g_type g ++ ".") \/
                       featureTypes_get (g_type g) = Some NotConstructor /\ e = TypeError)).
    { intro Hk.
      destruct (create_feature_outcome i f g c0) as [[Hn E] | [[Hn E] | [c1 E]]].
      - rewrite (bind_thrown _ _ _ _ _ E) in Hk. injection Hk as <- <-.
        split; [reflexivity|]. left. now split.
      - rewrite (bind_thrown _ _ _ _ _ E) in Hk. injection Hk as <- <-.
        split; [reflexivity|]. right. now split.
      - rewrite (bind_returned _ _ _ _ _ E) in Hk. discriminate. }
    destruct (store_get i (store c0)) as [ex|].
    + destruct (negb (type ex =? g_type g)).
      * destruct (Hcreate H) as [-> Hn].
        split; [exact Hs|]. right. exists g. now split.
      * destruct (update_feature_returns ex f g c0) as [c1 E].
        rewrite (bind_returned _ _ _ _ _ E) in H. discriminate.
    + destruct (Hcreate H) as [-> Hn].
      split; [exact Hs|]. right. exists g. now split.
  - cbn in H. injection H as <- <-. split; [exact Hs|]. left. split; reflexivity.
Qed.

Lemma api_add_hint_error (geojson : GeoJSON) (c : Ctx) (issue : HintIssue)
    (others : list HintIssue) :
  hint_errors geojson = issue :: others ->
  api_add geojson c = Thrown (Err (message issue)) c.
Proof.
  intro H. unfold api_add. now rewrite H.
Qed.

Lemma api_add_no_hint_error (geojson : GeoJSON) (c : Ctx) :
  hint_errors geojson = [] ->
  api_add geojson c
  = (ids <- mapM add_feature (normalize geojson) ;; ctx_store_render ;; ret ids) c.
Proof.
  intro H. unfold api_add. now rewrite H.
Qed.

(** C1, as the code has it: a structural-validation error leaves the whole
    context as it was.  Every other error (null geometry, invalid type, or
    a type that names an inherited member of [featureTypes] that is no
    constructor) is thrown at one feature of the collection, and the store
    is then what the features before that one made it; so it is the store
    of before the call when the feature is the first. *)
Theorem C1_add_error_keeps_earlier_features (geojson : GeoJSON) (c c' : Ctx) (e : Error) :
  api_add geojson c = Thrown e c' ->
  (exists issue others,
      hint_errors geojson = issue :: others /\ e = Err (message issue) /\ c' = c) \/
  (exists pre f post ids c1,
      hint_errors geojson = [] /\
      normalize geojson = pre ++ f :: post /\
      mapM add_feature pre c = Returned ids c1 /\
      add_feature f c1 = Thrown e c' /\
      store c' = store c1 /\
      (pre = [] -> store c' = store c)).
Proof.
  intro H. destruct (hint_errors geojson) as [|issue others] eqn:Eh.
  - right. rewrite (api_add_no_hint_error geojson c Eh) in H.
    unfold bind at 1 in H.
    destruct (mapM add_feature (normalize geojson) c) as [ids c0|e0 c0] eqn:Em.
    + discriminate.
    + injection H as -> ->.
      destruct (mapM_thrown _ _ _ _ _ Em) as [pre [f [post [ids [c1 [Hn [Hpre Hf]]]]]]].
      exists pre, f, post, ids, c1.
      destruct (add_feature_thrown f c1 c' e Hf) as [Hs _].
      repeat split; try assumption.
      intros ->. simpl in Hpre. injection Hpre as _ <-. exact Hs.
  - left. rewrite (api_add_hint_error geojson c issue others Eh) in H.
    injection H as <- <-. exists issue, others. repeat split.
Qed.

(** *** Coordinates and the store *)

Lemma isEqual_eq (a b : Coords) : isEqual a b = true -> a = b.
Proof.
  revert b. induction a as [n | items IH] using Coords_nested_ind; intros b H.
  - destruct b as [m|]; simpl in H; [|discriminate].
    apply Z.eqb_eq in H. now subst.
  - destruct b as [|items']; simpl in H; [discriminate|].
    f_equal. revert items' H.
    induction IH as [|x l Hx _ IHl]; intros [|y l'] H; try discriminate; [reflexivity|].
    apply andb_true_iff in H. destruct H as [H1 H2].
    f_equal; [now apply Hx | now apply IHl].
Qed.

Lemma find_has_id (i : string) (l : list Feature) (f : Feature) :
  find (has_id i) l = Some f -> id f = i /\ In f l.
Proof.
  intro H. apply find_some in H. destruct H as [Hin Hid].
  split; [now apply String.eqb_eq | exact Hin].
Qed.

Lemma find_has_id_none (i : string) (l : list Feature) :
  find (has_id i) l = None <-> ~ In i (map id l).
Proof.
  induction l as [|f l IH]; simpl.
  - split; [intros _ [] | reflexivity].
  - unfold has_id at 1. destruct (String.eqb_spec (id f) i) as [E|E].
    + split; [discriminate | intro H; elim H; now left].
    + rewrite IH. split; [intros H [H1|H1]; [contradiction | now apply H] |
                          intros H H1; apply H; now right].
Qed.

Lemma find_app_has_id (i : string) (l1 l2 : list Feature) :
  find (has_id i) (l1 ++ l2)
  = match find (has_id i) l1 with
    | Some f => Some f
    | None => find (has_id i) l2
    end.
Proof.
  induction l1 as [|f l1 IH]; simpl; [reflexivity|].
  destruct (has_id i f); [reflexivity | exact IH].
Qed.

Lemma find_replace_feature (j : string) (f : Feature) (l : list Feature) :
  In (id f) (map id l) ->
  find (has_id j) (replace_feature f l)
  = if j =? id f then Some f else find (has_id j) l.
Proof.
  induction l as [|g l IH]; intro Hin; [destruct Hin|].
  cbn [replace_feature find]. unfold has_id in *.
  destruct (String.eqb_spec (id g) (id f)) as [E|E].
  - cbn [find]. rewrite E, (String.eqb_sym j (id f)).
    now destruct (id f =? j).
  - cbn [find]. destruct (String.eqb_spec (id g) j) as [E2|E2].
    + subst j. destruct (String.eqb_spec (id g) (id f)); [contradiction | reflexivity].
    + apply IH. destruct Hin as [H|H]; [contradiction | exact H].
Qed.

Lemma map_id_replace_feature (f : Feature) (l : list Feature) :
  map id (replace_feature f l) = map id l.
Proof.
  induction l as [|g l IH]; simpl; [reflexivity|].
  unfold has_id. destruct (String.eqb_spec (id g) (id f)) as [E|E]; simpl.
  - now rewrite E.
  - now rewrite IH.
Qed.

Lemma store_get_add (j : string) (f : Feature) (s : Store) :
  store_get j (store_add f s) = if j =? id f then Some f else store_get j s.
Proof.
  unfold store_add. destruct (store_get (id f) s) as [g|] eqn:E; unfold store_get in *; simpl.
  - apply find_replace_feature. apply find_has_id in E. destruct E as [E Hin].
    rewrite <- E. now apply in_map.
  - rewrite find_app_has_id. simpl. unfold has_id at 2.
    rewrite (String.eqb_sym j (id f)).
    destruct (find (has_id j) (features s)) as [g|] eqn:Ej; [|reflexivity].
    destruct (String.eqb_spec (id f) j) as [Ef|Ef]; [|reflexivity].
    subst j. rewrite E in Ej. discriminate.
Qed.

Lemma keys_store_add (f : Feature) (s : Store) :
  store_getAllIds (store_add f s)
  = if mem (id f) (store_getAllIds s) then store_getAllIds s
    else store_getAllIds s ++ [id f].
Proof.
  unfold store_add, store_getAllIds.
  destruct (store_get (id f) s) as [g|] eqn:E; unfold store_get in E; simpl.
  - apply find_has_id in E. destruct E as [E Hin].
    assert (Hm : mem (id f) (map id (features s)) = true).
    { apply mem_In. rewrite <- E. now apply in_map. }
    rewrite Hm. apply map_id_replace_feature.
  - apply find_has_id_none in E. apply mem_false in E. rewrite E.
    now rewrite map_app.
Qed.

Lemma selectedIds_store_add (f : Feature) (s : Store) :
  selectedIds (store_add f s) = selectedIds s.
Proof. unfold store_add. destruct (store_get (id f) s); reflexivity. Qed.

Lemma features_store_add_wf (f : Feature) (s : Store) :
  feature_wf f -> Forall feature_wf (features s) ->
  Forall feature_wf (features (store_add f s)).
Proof.
  intros Hf Hs. unfold store_add. destruct (store_get (id f) s); simpl.
  - induction Hs as [|g l Hg Hl IH]; simpl; [constructor|].
    destruct (has_id (id f) g); constructor; assumption.
  - apply Forall_app. split; [exact Hs | now constructor].
Qed.

Lemma store_add_wf (f : Feature) (s : Store) :
  feature_wf f -> store_wf s -> store_wf (store_add f s).
Proof.
  intros Hf [Hnd Hall]. split.
  - rewrite keys_store_add. destruct (mem (id f) (store_getAllIds s)) eqn:E; [exact Hnd|].
    apply mem_false in E. apply NoDup_app; [exact Hnd | repeat constructor; intros [] | ].
    intros i Hi [<-|[]]. contradiction.
  - now apply features_store_add_wf.
Qed.

Lemma replace_feature_twice (f1 f2 : Feature) (l : list Feature) :
  id f1 = id f2 ->
  replace_feature f2 (replace_feature f1 l) = replace_feature f2 l.
Proof.
  intro E. induction l as [|g l IH]; [reflexivity|].
  cbn [replace_feature]. rewrite E. unfold has_id in *.
  destruct (String.eqb_spec (id g) (id f2)) as [Eg|Eg]; cbn [replace_feature].
  - unfold has_id. rewrite E, String.eqb_refl. reflexivity.
  - unfold has_id. destruct (String.eqb_spec (id g) (id f2)); [contradiction|].
    now rewrite IH.
Qed.

Lemma to_model_inv (f : GeoFeature) (m : Feature) :
  to_model f = Some m ->
  exists g,
    gf_id f = Some (id m) /\ id m <> "" /\ gf_geometry f = Some g /\
    featureTypes (g_type g) = Some (model m) /\
    m = mkFeature (id m) (g_type g) (gf_properties f) (g_coordinates g) (model m).
Proof.
  unfold to_model. destruct (gf_id f) as [i|]; [|discriminate].
  destruct (gf_geometry f) as [g|]; [|discriminate].
  destruct (String.eqb_spec i "") as [E|E]; [discriminate|].
  destruct (featureTypes (g_type g)) as [cls|] eqn:Ec; [|discriminate].
  intro H. injection H as <-. exists g. simpl. now repeat split.
Qed.

Lemma to_model_wf (f : GeoFeature) (m : Feature) :
  to_model f = Some m -> feature_wf m.
Proof.
  intro H. destruct (to_model_inv f m H) as [g [_ [_ [_ [Hc Hm]]]]].
  unfold feature_wf. rewrite Hm. simpl. exact Hc.
Qed.

Lemma id_or_hat_given (i : string) (c : Ctx) :
  i <> "" -> id_or_hat (Some i) c = Returned i c.
Proof.
  intro H. unfold id_or_hat. destruct (String.eqb_spec i ""); [contradiction | reflexivity].
Qed.

Lemma create_feature_run (f : GeoFeature) (g : Geometry) (m : Feature) (c : Ctx) :
  id m <> "" ->
  featureTypes (g_type g) = Some (model m) ->
  m = mkFeature (id m) (g_type g) (gf_properties f) (g_coordinates g) (model m) ->
  create_feature (id m) f g c = Returned tt (with_store (store_add m (store c)) c).
Proof.
  intros Hi Hc Hm. unfold create_feature.
  rewrite (proj2 (featureTypes_get_Class _ _) Hc).
  erewrite bind_returned
    by (apply new_model_given; [exact Hi | intro E; rewrite E in Hc; exact Hc]).
  rewrite <- Hm. reflexivity.
Qed.

Lemma update_feature_run (ex : Feature) (f : GeoFeature) (g : Geometry) (m : Feature)
    (c : Ctx) :
  store_get (id m) (store c) = Some ex ->
  type ex = g_type g ->
  model ex = model m ->
  m = mkFeature (id m) (g_type g) (gf_properties f) (g_coordinates g) (model m) ->
  update_feature ex f g c = Returned tt (with_store (store_add m (store c)) c).
Proof.
  intros Hget Ht Hcls Hm. unfold update_feature.
  assert (Hid : id ex = id m) by (apply find_has_id in Hget; tauto).
  assert (Hnew : incomingCoords (g_coordinates g) (set_properties (gf_properties f) ex) = m).
  { rewrite Hm. unfold incomingCoords, set_properties. cbn. now rewrite Hid, Ht, Hcls. }
  erewrite bind_returned by reflexivity.
  unfold store_add. rewrite Hget.
  destruct (isEqual (getCoordinates (set_properties (gf_properties f) ex))
                    (g_coordinates g)) eqn:Eq; cbn [negb].
  - apply isEqual_eq in Eq.
    assert (Hsame : set_properties (gf_properties f) ex = m).
    { rewrite <- Hnew. unfold incomingCoords. rewrite <- Eq.
      unfold getCoordinates. now destruct (set_properties (gf_properties f) ex). }
    rewrite Hsame. destruct c; reflexivity.
  - rewrite Hnew. unfold ctx_store_mutate, modify, store_mutate.
    cbn [with_store store features selectedIds batchOpen].
    rewrite replace_feature_twice by (cbn; exact Hid).
    destruct c; reflexivity.
Qed.

(** Under the store invariants, a feature with an id of its own, a geometry
    and a supported type is ingested by putting its model in the store. *)
Lemma add_feature_run (f : GeoFeature) (m : Feature) (c : Ctx) :
  store_wf (store c) ->
  to_model f = Some m ->
  add_feature f c = Returned (id m) (with_store (store_add m (store c)) c).
Proof.
  intros [_ Hall] H.
  destruct (to_model_inv f m H) as [g [Hi [Hne [Hg [Hc Hm]]]]].
  unfold add_feature. rewrite Hi, Hg.
  erewrite bind_returned by (apply id_or_hat_given; exact Hne).
  rewrite (bind_returned _ _ c c (store_get (id m) (store c))) by reflexivity.
  destruct (store_get (id m) (store c)) as [ex|] eqn:Eget.
  - destruct (String.eqb_spec (type ex) (g_type g)) as [Et|Et]; cbn [negb].
    + erewrite bind_returned; [reflexivity|].
      apply update_feature_run; try assumption.
      unfold store_get in Eget. apply find_has_id in Eget. destruct Eget as [_ Hin].
      rewrite Forall_forall in Hall. specialize (Hall ex Hin).
      unfold feature_wf in Hall. rewrite Et, Hc in Hall. now injection Hall.
    + erewrite bind_returned; [reflexivity|]. now apply create_feature_run.
  - erewrite bind_returned; [reflexivity|]. now apply create_feature_run.
Qed.

Lemma with_store_store (s : Store) (c : Ctx) : store (with_store s c) = s.
Proof. reflexivity. Qed.

Lemma store_add_all_wf (ms : list Feature) (s : Store) :
  Forall feature_wf ms -> store_wf s -> store_wf (store_add_all ms s).
Proof.
  intro H. revert s. induction H as [|m ms Hm _ IH]; intros s Hs; [exact Hs|].
  simpl. apply IH. now apply store_add_wf.
Qed.

Lemma mapM_add_feature_run (fs : list GeoFeature) (ms : list Feature) (c : Ctx) :
  store_wf (store c) ->
  map to_model fs = map Some ms ->
  mapM add_feature fs c
  = Returned (map id ms) (with_store (store_add_all ms (store c)) c).
Proof.
  revert ms c. induction fs as [|f fs IH]; intros [|m ms] c Hwf H; try discriminate.
  - simpl. unfold ret. destruct c; reflexivity.
  - simpl in H. injection H as Hf Hfs. simpl.
    erewrite bind_returned by (apply add_feature_run; eassumption).
    erewrite bind_returned.
    2:{ apply IH; [|exact Hfs]. rewrite with_store_store.
        apply store_add_wf; [now apply (to_model_wf f) | exact Hwf]. }
    reflexivity.
Qed.

(** Under the store invariants, a feature with an id of its own that the
    callback ingests has a model. *)
Lemma add_feature_returned (f : GeoFeature) (c c' : Ctx) (i : string) :
  store_wf (store c) -> has_own_id f -> not_constructor f ->
  add_feature f c = Returned i c' ->
  exists m, to_model f = Some m.
Proof.
  intros [_ Hall] [j [Hj Hne]] Hnc H. unfold to_model. rewrite Hj.
  unfold add_feature in H. rewrite Hj in H.
  rewrite (bind_returned _ _ _ _ _ (id_or_hat_given j c Hne)) in H.
  destruct (gf_geometry f) as [g|] eqn:Eg; [|discriminate].
  specialize (Hnc g Eg).
  destruct (String.eqb_spec j ""); [contradiction|].
  destruct (featureTypes (g_type g)) as [cls|] eqn:Ec; [eexists; reflexivity|].
  exfalso.
  rewrite (bind_returned _ _ c c (store_get j (store c))) in H by reflexivity.
  assert (Hcreate : bind (create_feature j f g) (fun _ => ret j) c <> Returned i c').
  { unfold create_feature, featureTypes_get. rewrite Ec.
    destruct (String.eqb_spec (g_type g) "constructor"); [contradiction|].
    destruct (mem (g_type g) Object_prototype); discriminate. }
  destruct (store_get j (store c)) as [ex|] eqn:Eget; [|contradiction].
  destruct (String.eqb_spec (type ex) (g_type g)) as [Et|Et]; cbn [negb] in H;
    [|contradiction].
  unfold store_get in Eget. apply find_has_id in Eget. destruct Eget as [_ Hin].
  rewrite Forall_forall in Hall. specialize (Hall ex Hin).
  unfold feature_wf in Hall. rewrite Et, Ec in Hall. discriminate.
Qed.

Lemma mapM_add_feature_returned (fs : list GeoFeature) (c c' : Ctx) (ids : list string) :
  store_wf (store c) -> Forall has_own_id fs -> Forall not_constructor fs ->
  mapM add_feature fs c = Returned ids c' ->
  exists ms, map to_model fs = map Some ms.
Proof.
  intros Hwf Hown Hnc. revert c ids Hwf.
  induction fs as [|f fs IH]; intros c ids Hwf H.
  - exists []. reflexivity.
  - apply Forall_cons_iff in Hown. destruct Hown as [Hf Hown].
    apply Forall_cons_iff in Hnc. destruct Hnc as [Hnf Hnc].
    specialize (IH Hown Hnc).
    simpl in H. unfold bind at 1 in H.
    destruct (add_feature f c) as [i c0|] eqn:Ef; [|discriminate].
    destruct (add_feature_returned f c c0 i Hwf Hf Hnf Ef) as [m Hm].
    rewrite (add_feature_run f m c Hwf Hm) in Ef. injection Ef as _ <-.
    unfold bind at 1 in H.
    destruct (mapM add_feature fs (with_store (store_add m (store c)) c)) as [ids' c1|] eqn:Efs;
      [|discriminate].
    cbv [ret] in H. injection H as _ ->.
    destruct (IH (with_store (store_add m (store c)) c) ids') as [ms Hms];
      [apply store_add_wf; [now apply (to_model_wf f) | exact Hwf] | exact Efs |].
    exists (m :: ms). simpl. now rewrite Hm, Hms.
Qed.

(** *** set *)

Lemma features_ext (l1 l2 : list Feature) :
  map id l1 = map id l2 ->
  NoDup (map id l1) ->
  (forall j, find (has_id j) l1 = find (has_id j) l2) ->
  l1 = l2.
Proof.
  revert l2. induction l1 as [|f l1 IH]; intros [|g l2] Hk Hnd Hget; try discriminate.
  - reflexivity.
  - simpl in Hk. injection Hk as Hid Hk.
    inversion Hnd as [|x xs Hnotin Hnd']. subst x xs.
    assert (Hfg : f = g).
    { specialize (Hget (id f)). simpl in Hget. unfold has_id in Hget.
      rewrite <- Hid, String.eqb_refl in Hget. now injection Hget. }
    subst g. f_equal. apply IH; [exact Hk | exact Hnd' |].
    intro j. specialize (Hget j). simpl in Hget.
    destruct (has_id j f) eqn:Ej; [|exact Hget].
    unfold has_id in Ej. apply String.eqb_eq in Ej. subst j.
    assert (H1 : find (has_id (id f)) l1 = None) by now apply find_has_id_none.
    assert (H2 : find (has_id (id f)) l2 = None).
    { apply find_has_id_none. now rewrite <- Hk. }
    now rewrite H1, H2.
Qed.

Lemma find_filter_by_id (q : string -> bool) (j : string) (l : list Feature) :
  find (has_id j) (filter (fun f => q (id f)) l)
  = if q j then find (has_id j) l else None.
Proof.
  induction l as [|f l IH]; simpl; [now destruct (q j)|].
  destruct (q (id f)) eqn:Eq; simpl.
  - destruct (has_id j f) eqn:Ej; [|exact IH].
    unfold has_id in Ej. apply String.eqb_eq in Ej. subst j. now rewrite Eq.
  - destruct (has_id j f) eqn:Ej; [|exact IH].
    unfold has_id in Ej. apply String.eqb_eq in Ej. subst j. rewrite Eq in *.
    exact IH.
Qed.

Lemma map_id_filter (q : string -> bool) (l : list Feature) :
  map id (filter (fun f => q (id f)) l) = filter q (map id l).
Proof.
  induction l as [|f l IH]; simpl; [reflexivity|].
  destruct (q (id f)); simpl; now rewrite IH.
Qed.

Lemma filter_all {A} (q : A -> bool) (l : list A) :
  (forall x, In x l -> q x = true) -> filter q l = l.
Proof.
  induction l as [|x l IH]; intro H; simpl; [reflexivity|].
  rewrite (H x (or_introl eq_refl)). f_equal. apply IH. intros y Hy. apply H. now right.
Qed.

Lemma filter_none {A} (q : A -> bool) (l : list A) :
  (forall x, In x l -> q x = false) -> filter q l = [].
Proof.
  induction l as [|x l IH]; intro H; simpl; [reflexivity|].
  rewrite (H x (or_introl eq_refl)). apply IH. intros y Hy. apply H. now right.
Qed.

Lemma store_get_add_all (j : string) (ms : list Feature) (s : Store) :
  store_get j (store_add_all ms s)
  = match find (has_id j) (rev ms) with
    | Some m => Some m
    | None => store_get j s
    end.
Proof.
  revert s. induction ms as [|m ms IH]; intro s; simpl; [reflexivity|].
  rewrite IH, find_app_has_id, store_get_add.
  destruct (find (has_id j) (rev ms)); [reflexivity|].
  simpl. unfold has_id. rewrite (String.eqb_sym j (id m)).
  now destruct (id m =? j).
Qed.

Lemma In_keys_add (k : string) (f : Feature) (s : Store) :
  In k (store_getAllIds (store_add f s)) <-> In k (store_getAllIds s) \/ k = id f.
Proof.
  rewrite keys_store_add. destruct (mem (id f) (store_getAllIds s)) eqn:E.
  - apply mem_In in E. split; [now left | intros [H | ->]; assumption].
  - rewrite in_app_iff. simpl. split.
    + intros [H | [<- | []]]; [now left | now right].
    + intros [H | ->]; [now left | right; now left].
Qed.

Lemma In_keys_add_all (k : string) (ms : list Feature) (s : Store) :
  In k (store_getAllIds (store_add_all ms s))
  <-> In k (store_getAllIds s) \/ In k (map id ms).
Proof.
  revert s. induction ms as [|m ms IH]; intro s; simpl.
  - split; [now left | intros [H|[]]; exact H].
  - rewrite IH, In_keys_add. split.
    + intros [[H | ->] | H]; auto.
    + intros [H | [<- | H]]; auto.
Qed.

Lemma keys_add_all_known (ms : list Feature) (s : Store) :
  (forall m, In m ms -> In (id m) (store_getAllIds s)) ->
  store_getAllIds (store_add_all ms s) = store_getAllIds s.
Proof.
  revert s. induction ms as [|m ms IH]; intros s H; simpl; [reflexivity|].
  assert (Hk : store_getAllIds (store_add m s) = store_getAllIds s).
  { rewrite keys_store_add.
    assert (E : mem (id m) (store_getAllIds s) = true).
    { apply mem_In. apply H. now left. }
    now rewrite E. }
  rewrite IH; [exact Hk|].
  intros m' Hm'. rewrite Hk. apply H. now right.
Qed.

Lemma NoDup_keys_add_all (ms : list Feature) (s : Store) :
  NoDup (store_getAllIds s) -> NoDup (store_getAllIds (store_add_all ms s)).
Proof.
  revert s. induction ms as [|m ms IH]; intros s H; simpl; [exact H|].
  apply IH. rewrite keys_store_add.
  destruct (mem (id m) (store_getAllIds s)) eqn:E; [exact H|].
  apply mem_false in E. apply NoDup_app; [exact H | repeat constructor; intros [] |].
  intros i Hi [<-|[]]. contradiction.
Qed.

Lemma selectedIds_add_all (ms : list Feature) (s : Store) :
  selectedIds (store_add_all ms s) = selectedIds s.
Proof.
  revert s. induction ms as [|m ms IH]; intro s; simpl; [reflexivity|].
  now rewrite IH, selectedIds_store_add.
Qed.

Lemma find_rev_id (j : string) (ms : list Feature) (m : Feature) :
  find (has_id j) (rev ms) = Some m -> In j (map id ms).
Proof.
  intro H. apply find_has_id in H. destruct H as [<- Hin].
  apply in_map. now apply in_rev.
Qed.

Lemma set_store_keys (ms : list Feature) (s : Store) (k : string) :
  In k (store_getAllIds (set_store ms s)) <-> In k (map id ms).
Proof.
  unfold set_store, with_batch, store_delete, store_getAllIds. cbn [features].
  rewrite (map_id_filter (fun i => negb (mem i _))), filter_In.
  fold (store_getAllIds s). fold (store_getAllIds (store_add_all ms s)).
  rewrite In_keys_add_all, negb_true_iff, mem_false, filter_In, negb_true_iff, mem_false.
  split.
  - intros [[H|H] Hn]; [|exact H].
    destruct (in_dec string_dec k (map id ms)) as [Hk|Hk]; [exact Hk|].
    elim Hn. now split.
  - intro H. split; [now right | intros [_ Hn]; contradiction].
Qed.

Lemma set_store_get (ms : list Feature) (s : Store) (j : string) :
  store_get j (set_store ms s)
  = if negb (mem j (filter (fun i => negb (mem i (map id ms))) (store_getAllIds s)))
    then store_get j (store_add_all ms s) else None.
Proof.
  unfold set_store, with_batch, store_delete, store_get. cbn [features].
  apply (find_filter_by_id (fun i => negb (mem i _))).
Qed.

Lemma set_store_NoDup (ms : list Feature) (s : Store) :
  NoDup (store_getAllIds s) -> NoDup (store_getAllIds (set_store ms s)).
Proof.
  intro H. unfold set_store, with_batch, store_delete, store_getAllIds. cbn [features].
  rewrite (map_id_filter (fun i => negb (mem i _))).
  apply NoDup_filter. now apply NoDup_keys_add_all.
Qed.

Lemma set_store_wf (ms : list Feature) (s : Store) :
  Forall feature_wf ms -> store_wf s -> store_wf (set_store ms s).
Proof.
  intros Hms Hs. split; [apply set_store_NoDup; apply Hs|].
  destruct (store_add_all_wf ms s Hms Hs) as [_ Hall].
  unfold set_store, with_batch, store_delete. cbn [features].
  rewrite Forall_forall in *. intros f Hf. apply filter_In in Hf. now apply Hall.
Qed.

Lemma store_delete_nil (s : Store) : store_delete [] s = s.
Proof.
  unfold store_delete. cbn [mem existsb negb].
  rewrite !filter_all by reflexivity. now destruct s.
Qed.

(** Ingesting the same models again leaves the store of [set] as it is. *)
Lemma set_store_idempotent (ms : list Feature) (s : Store) :
  NoDup (store_getAllIds s) ->
  set_store ms (set_store ms s) = set_store ms s.
Proof.
  intro Hnd. set (s1 := set_store ms s).
  assert (Hkeys : forall k, In k (store_getAllIds s1) <-> In k (map id ms))
    by apply set_store_keys.
  assert (HD : filter (fun i => negb (mem i (map id ms))) (store_getAllIds s1) = []).
  { apply filter_none. intros k Hk. apply negb_false_iff, mem_In. now apply Hkeys. }
  unfold set_store at 1. rewrite HD, store_delete_nil.
  assert (Hf : features (store_add_all ms s1) = features s1).
  { apply features_ext.
    - change (store_getAllIds (store_add_all ms s1) = store_getAllIds s1).
      apply keys_add_all_known. intros m Hm. apply Hkeys. now apply in_map.
    - change (NoDup (store_getAllIds (store_add_all ms s1))).
      apply NoDup_keys_add_all. now apply set_store_NoDup.
    - intro j. change (store_get j (store_add_all ms s1) = store_get j s1).
      rewrite store_get_add_all.
      destruct (find (has_id j) (rev ms)) as [m|] eqn:Em; [|reflexivity].
      unfold s1. rewrite set_store_get, store_get_add_all, Em.
      assert (Hq : mem j (filter (fun i => negb (mem i (map id ms))) (store_getAllIds s))
                   = false).
      { apply mem_false. intro Hin. apply filter_In in Hin. destruct Hin as [_ Hn].
        apply negb_true_iff, mem_false in Hn. apply Hn. now apply (find_rev_id j ms m). }
      now rewrite Hq. }
  unfold with_batch. rewrite Hf, selectedIds_add_all. reflexivity.
Qed.

Lemma store_add_with_batch (b : bool) (f : Feature) (s : Store) :
  store_add f (with_batch b s) = with_batch b (store_add f s).
Proof.
  unfold store_add, store_get, with_batch. cbn [features selectedIds batchOpen].
  destruct (find (has_id (id f)) (features s)); reflexivity.
Qed.

Lemma store_add_all_with_batch (b : bool) (ms : list Feature) (s : Store) :
  store_add_all ms (with_batch b s) = with_batch b (store_add_all ms s).
Proof.
  revert s. induction ms as [|m ms IH]; intro s; simpl; [reflexivity|].
  now rewrite store_add_with_batch, IH.
Qed.

Lemma api_add_run (geojson : GeoJSON) (ms : list Feature) (c : Ctx) :
  store_wf (store c) ->
  hint_errors geojson = [] ->
  map to_model (normalize geojson) = map Some ms ->
  api_add geojson c
  = Returned (map id ms) (rendered (with_store (store_add_all ms (store c)) c)).
Proof.
  intros Hwf Hh Hms. rewrite (api_add_no_hint_error geojson c Hh).
  erewrite bind_returned by (apply mapM_add_feature_run; eassumption).
  reflexivity.
Qed.

Lemma api_delete_store (ids : list string) (c : Ctx) :
  exists c', api_delete ids c = Returned api c' /\
             store c' = store_delete ids (store c).
Proof.
  rewrite api_delete_run. eexists. split; [reflexivity|].
  destruct (_ && _); [reflexivity|]. now rewrite store_rendered.
Qed.

(** What [set] returns and leaves in the store when the collection passes
    the validator and every feature of it has a model. *)
Lemma api_set_run (fs : list GeoFeature) (ms : list Feature) (c : Ctx) :
  store_wf (store c) ->
  hint_errors (FeatureCollection fs) = [] ->
  map to_model fs = map Some ms ->
  exists c1,
    api_set (FeatureCollection fs) c = Returned (map id ms) c1 /\
    store c1 = set_store ms (store c).
Proof.
  intros Hwf Hh Hms. unfold api_set.
  set (ca := with_store (with_batch true (store c)) c).
  rewrite (bind_returned _ _ c ca tt) by reflexivity.
  rewrite (bind_returned _ _ ca ca (store_getAllIds (store c))) by reflexivity.
  erewrite bind_returned by (apply (api_add_run _ ms); assumption).
  set (cb := rendered (with_store (store_add_all ms (store ca)) ca)).
  assert (Hcb : store cb = with_batch true (store_add_all ms (store c))).
  { unfold cb. rewrite store_rendered. cbn [with_store store]. unfold ca.
    cbn [with_store store]. apply store_add_all_with_batch. }
  set (D := filter (fun i => negb (mem i (map id ms))) (store_getAllIds (store c))).
  assert (Hstep : exists cd,
    bind (if (0 <? length D)%nat then api_delete D ;; ret tt else ret tt)
         (fun _ => renderBatch_close ;; ret (map id ms)) cb
    = bind renderBatch_close (fun _ => ret (map id ms)) cd /\
    store cd = store_delete D (store cb)).
  { destruct (0 <? length D)%nat eqn:E.
    - destruct (api_delete_store D cb) as [cd [Hd Hs]].
      exists cd. split; [|exact Hs].
      erewrite bind_returned; [reflexivity|].
      erewrite bind_returned by exact Hd. reflexivity.
    - exists cb. split; [reflexivity|].
      destruct D; [now rewrite store_delete_nil | discriminate]. }
  destruct Hstep as [cd [Hrun Hcd]]. rewrite Hrun.
  eexists. split; [reflexivity|].
  cbn [renderBatch_close modify emit with_store store].
  unfold renderBatch_close, modify. cbn [emit with_store store].
  rewrite Hcd, Hcb. reflexivity.
Qed.

Lemma api_set_returned (fs : list GeoFeature) (c c1 : Ctx) (ids : list string) :
  store_wf (store c) -> Forall has_own_id fs -> Forall not_constructor fs ->
  api_set (FeatureCollection fs) c = Returned ids c1 ->
  hint_errors (FeatureCollection fs) = [] /\
  exists ms, map to_model fs = map Some ms.
Proof.
  intros Hwf Hown Hnc H. unfold api_set in H.
  set (ca := with_store (with_batch true (store c)) c) in *.
  rewrite (bind_returned _ _ c ca tt) in H by reflexivity.
  rewrite (bind_returned _ _ ca ca (store_getAllIds (store c))) in H by reflexivity.
  destruct (hint_errors (FeatureCollection fs)) as [|issue others] eqn:Eh.
  - split; [reflexivity|].
    destruct (mapM add_feature fs ca) as [ids' c'|e c'] eqn:Em.
    + now apply (mapM_add_feature_returned fs ca c' ids').
    + exfalso. erewrite bind_thrown in H; [discriminate|].
      rewrite (api_add_no_hint_error _ _ Eh). cbn [normalize].
      erewrite bind_thrown by exact Em. reflexivity.
  - exfalso. erewrite bind_thrown in H; [discriminate|].
    now apply (api_add_hint_error _ _ issue others).
Qed.

(** C5, as the code has it: when every feature of the collection carries an
    id of its own and none has the geometry type ["constructor"] (under which
    line 76 finds the function [Object], so that [set] returns without
    having stored a feature), a second [set] of the collection returns the
    id list of the first and leaves the store as the first left it. *)
Theorem C5_set_idempotent_with_own_ids (fs : list GeoFeature) (c c1 : Ctx)
    (ids1 : list string) :
  store_wf (store c) ->
  Forall has_own_id fs ->
  Forall not_constructor fs ->
  api_set (FeatureCollection fs) c = Returned ids1 c1 ->
  exists c2,
    api_set (FeatureCollection fs) c1 = Returned ids1 c2 /\
    store c2 = store c1.
Proof.
  intros Hwf Hown Hnc H1.
  destruct (api_set_returned fs c c1 ids1 Hwf Hown Hnc H1) as [Hh [ms Hms]].
  destruct (api_set_run fs ms c Hwf Hh Hms) as [c1' [Hrun Hs1]].
  rewrite Hrun in H1. injection H1 as <- <-.
  assert (Hmswf : Forall feature_wf ms).
  { clear - Hms. revert ms Hms. induction fs as [|f fs IH]; intros [|m ms] H;
      try discriminate; [constructor|].
    simpl in H. injection H as Hf Hfs. constructor;
      [now apply (to_model_wf f) | now apply IH]. }
  assert (Hwf1 : store_wf (store c1')).
  { rewrite Hs1. now apply set_store_wf. }
  destruct (api_set_run fs ms c1' Hwf1 Hh Hms) as [c2 [Hrun2 Hs2]].
  exists c2. split; [exact Hrun2|].
  rewrite Hs2, Hs1. apply set_store_idempotent. apply Hwf.
Qed.

(** *** Merge, then split *)

Lemma substring_whole (s : string) : substring 0 (String.length s) s = s.
Proof. induction s as [|a s IH]; simpl; [reflexivity | now rewrite IH]. Qed.

Lemma baseType_Multi (t : string) : baseType ("Multi" ++ t) = t.
Proof.
  unfold baseType. simpl.
  replace (prefix "" t) with true by now destruct t.
  rewrite Nat.sub_0_r. apply substring_whole.
Qed.

Lemma fresh_parts_coordinates (t : string) (n : nat) (cs : list Coords) :
  map coordinates (fresh_parts t n cs) = cs.
Proof. revert n. induction cs as [|x cs IH]; intro n; simpl; [|rewrite IH]; reflexivity. Qed.

Lemma fresh_parts_ids (t : string) (n : nat) (cs : list Coords) :
  map id (fresh_parts t n cs) = map hat_ids (seq n (length cs)).
Proof. revert n. induction cs as [|x cs IH]; intro n; simpl; [|rewrite IH]; reflexivity. Qed.

Lemma fresh_parts_length (t : string) (n : nat) (cs : list Coords) :
  length (fresh_parts t n cs) = length cs.
Proof. revert n. induction cs as [|x cs IH]; intro n; simpl; [|rewrite IH]; reflexivity. Qed.

Lemma fresh_parts_single (t : string) (n : nat) (cs : list Coords) :
  Forall (fun p => model p = SinglePart /\ type p = t /\ properties p = [])
         (fresh_parts t n cs).
Proof.
  revert n. induction cs as [|x cs IH]; intro n; simpl; constructor;
    [repeat split | apply IH].
Qed.

Lemma store_add_fresh (f : Feature) (s : Store) :
  ~ In (id f) (store_getAllIds s) ->
  features (store_add f s) = features s ++ [f].
Proof.
  intro H. unfold store_add, store_get.
  apply find_has_id_none in H. now rewrite H.
Qed.

Lemma store_add_all_fresh (fs : list Feature) (s : Store) :
  NoDup (map id fs) ->
  (forall f, In f fs -> ~ In (id f) (store_getAllIds s)) ->
  features (store_add_all fs s) = features s ++ fs.
Proof.
  revert s. induction fs as [|f fs IH]; intros s Hnd Hfresh; simpl.
  - now rewrite app_nil_r.
  - inversion Hnd as [|x xs Hnotin Hnd']. subst x xs.
    rewrite IH; [| exact Hnd' |].
    + rewrite store_add_fresh by (apply Hfresh; now left).
      now rewrite <- app_assoc.
    + intros g Hg Hin. apply In_keys_add in Hin. destruct Hin as [Hin | Heq].
      * apply (Hfresh g); [now right | exact Hin].
      * apply Hnotin. rewrite <- Heq. now apply in_map.
Qed.

Lemma resolve_Some_In (ids : list string) (fs : list Feature) (s : Store) :
  resolve ids s = map Some fs ->
  forall i, In i ids -> In i (store_getAllIds s).
Proof.
  revert fs. induction ids as [|j ids IH]; intros [|f fs] H i Hi; try discriminate;
    [destruct Hi|].
  simpl in H. injection H as Hj Hrest. destruct Hi as [<- | Hi].
  - unfold store_get in Hj. apply find_has_id in Hj. destruct Hj as [<- Hin].
    now apply in_map.
  - now apply (IH fs).
Qed.

Lemma filter_same_type_all (t : string) (fs : list Feature) :
  Forall (fun f => model f = SinglePart /\ type f = t) fs ->
  filter (same_type t) fs = fs.
Proof.
  intro H. apply filter_all. intros f Hf. rewrite Forall_forall in H.
  destruct (H f Hf) as [_ Ht]. unfold same_type. rewrite Ht. apply String.eqb_refl.
Qed.

(** C2: merging two or more stored single-part features of one type
    (Point, LineString or Polygon) and then splitting the composite leaves,
    after the features that were not merged, one single-part feature of that
    type per merged id, and the coordinates of these features are, in order,
    the coordinates of the merged ones.  The generated ids are taken to be
    fresh. *)
Theorem C2_merge_then_split (ids : list string) (fs : list Feature) (t : string)
    (c : Ctx) :
  2 <= length ids ->
  resolve ids (store c) = map Some fs ->
  featureTypes t = Some SinglePart ->
  Forall (fun f => model f = SinglePart /\ type f = t) fs ->
  fresh_ids (S (length ids)) c ->
  exists c1 composite c2 parts,
    api_mergeSelectedFeatures (Some ids) c = Returned api c1 /\
    last (creations (effects c1)) [] = [toGeoJSON composite] /\
    api_splitSelectedFeatures (Some [id composite]) c1 = Returned api c2 /\
    features (store c2)
    = filter (fun f => negb (mem (id f) ids)) (features (store c)) ++ parts /\
    length parts = length ids /\
    map coordinates parts = map coordinates fs /\
    Forall (fun p => model p = SinglePart /\ type p = t /\ properties p = []) parts.
Proof.
  intros Hlen Hres Htag Hsingle [Hnd Hfresh].
  assert (Hlenfs : length fs = length ids).
  { rewrite <- (resolve_length ids (store c)), Hres. now rewrite length_map. }
  destruct fs as [|first rest]; [simpl in Hlenfs; lia|].
  assert (Hrest : rest <> []) by (intros ->; simpl in Hlenfs; lia).
  assert (Ht : type first = t) by (inversion Hsingle as [|x xs [_ H] _]; exact H).
  set (n := hatCount c) in *.
  set (M := merged_feature first (first :: rest) c).
  assert (HM : M = mkFeature (hat_ids n) ("Multi" ++ t) []
                     (CArr (map coordinates (first :: rest))) MultiFeature).
  { unfold M, merged_feature. rewrite Ht, filter_same_type_all by exact Hsingle.
    reflexivity. }
  assert (HtM : type M = ("Multi" ++ t)%string) by (rewrite HM; reflexivity).
  assert (HcM : parts_of (coordinates M) = map coordinates (first :: rest))
    by (rewrite HM; reflexivity).
  assert (HiM : id M = hat_ids n) by (rewrite HM; reflexivity).
  set (kept := filter (fun f => negb (mem (id f) ids)) (features (store c))).
  (* the generated ids *)
  cbn [seq map] in Hnd, Hfresh. fold n in Hnd, Hfresh.
  inversion Hnd as [|x xs HMnotin Hnd']. subst x xs.
  assert (HMfresh : ~ In (id M) (store_getAllIds (store c))).
  { rewrite HiM. apply Hfresh. now left. }
  assert (HMids : ~ In (id M) ids).
  { intro H. apply HMfresh. now apply (resolve_Some_In ids (first :: rest)). }
  (* the store after the merge *)
  set (s1 := store_delete ids (store_add M (store c))).
  assert (Hs1 : features s1 = kept ++ [M]).
  { unfold s1, store_delete. cbn [features].
    rewrite store_add_fresh by exact HMfresh.
    rewrite filter_app. cbn [filter].
    apply mem_false in HMids. now rewrite HMids. }
  assert (Hkept : forall i, In i (map id kept) -> In i (store_getAllIds (store c))).
  { intros i Hi. apply in_map_iff in Hi. destruct Hi as [f [<- Hf]].
    apply filter_In in Hf. apply in_map. apply Hf. }
  assert (Hget : store_get (id M) s1 = Some M).
  { unfold store_get. rewrite Hs1, find_app_has_id.
    assert (Hnone : find (has_id (id M)) kept = None).
    { apply find_has_id_none. intro H. apply HMfresh. now apply Hkept. }
    rewrite Hnone. cbn [find]. unfold has_id. now rewrite String.eqb_refl. }
  set (c1 := emit (Fire CREATE [toGeoJSON M]) (rendered (with_store s1 (bump 1 c)))).
  assert (Hc1store : store c1 = s1).
  { unfold c1. cbn [emit store]. now rewrite store_rendered. }
  assert (Hc1hat : hatCount c1 = S n).
  { unfold c1, rendered. cbn [emit hatCount].
    destruct (batchOpen (store (with_store s1 (bump 1 c)))); reflexivity. }
  (* the parts *)
  set (parts := fresh_parts t (S n) (map coordinates (first :: rest))).
  assert (Hpids : map id parts = map hat_ids (seq (S n) (length ids))).
  { unfold parts. now rewrite fresh_parts_ids, length_map, Hlenfs. }
  assert (Hsplit : split_feature [] (Some M) c1
                   = Returned (map toGeoJSON parts) (split_composite M c1)).
  { rewrite (split_feature_composite M [] c1) by (rewrite HM; reflexivity).
    now rewrite Hc1hat, HtM, HcM, baseType_Multi. }
  assert (Hstore2 : features (store (split_composite M c1)) = kept ++ parts).
  { unfold split_composite. rewrite store_rendered. cbn [with_store store bump].
    rewrite Hc1hat, Hc1store, HtM, HcM, baseType_Multi. fold parts.
    unfold store_delete. cbn [features].
    rewrite store_add_all_fresh.
    - rewrite Hs1, !filter_app. cbn [filter mem existsb].
      rewrite String.eqb_refl. cbn [orb negb]. rewrite app_nil_r.
      f_equal; apply filter_all; intros f Hf.
      + apply negb_true_iff. rewrite orb_false_r. apply String.eqb_neq.
        intro E. apply HMfresh. apply Hkept. rewrite <- E. now apply in_map.
      + apply negb_true_iff. rewrite orb_false_r. apply String.eqb_neq.
        intro E. apply HMnotin. rewrite <- HiM, <- E, <- Hpids. now apply in_map.
    - now rewrite Hpids.
    - intros p Hp Hin. unfold store_getAllIds in Hin. rewrite Hs1, map_app in Hin.
      assert (Hpid : In (id p) (map hat_ids (seq (S n) (length ids)))).
      { rewrite <- Hpids. now apply in_map. }
      apply in_app_or in Hin. destruct Hin as [Hin | [E | []]].
      + apply (Hfresh (id p)); [now right | now apply Hkept].
      + apply HMnotin. now rewrite <- HiM, E. }
  exists c1, M, (emit (Fire CREATE (map toGeoJSON parts)) (split_composite M c1)), parts.
  split.
  { apply merge_run; [exact Hres | exact Hrest |].
    rewrite Ht. now apply Multi_of_single. }
  split.
  { unfold c1. cbn [emit effects]. rewrite creations_app. cbn [creations flat_map].
    unfold CREATE at 1. rewrite String.eqb_refl. cbn [app]. apply last_last. }
  split.
  { unfold api_splitSelectedFeatures.
    erewrite bind_returned by apply mapM_ctx_store_get.
    cbn [resolve map]. rewrite Hc1store, Hget. cbn [foldM].
    erewrite bind_returned; [reflexivity|].
    erewrite bind_returned by exact Hsplit. reflexivity. }
  split; [exact Hstore2|].
  split; [unfold parts; now rewrite fresh_parts_length, length_map|].
  split; [apply fresh_parts_coordinates | apply fresh_parts_single].
Qed.

(** *** What ingestion keeps *)

Lemma bind_rel (R : Ctx -> Ctx -> Prop) {A B} (m : Js A) (k : A -> Js B) (c : Ctx) :
  (forall x y z, R x y -> R y z -> R x z) ->
  R c (outcome_ctx (m c)) ->
  (forall a c1, R c1 (outcome_ctx (k a c1))) ->
  R c (outcome_ctx (bind m k c)).
Proof.
  intros Htrans Hm Hk. unfold bind. destruct (m c) as [a c1|e c1]; simpl in *.
  - eapply Htrans; [exact Hm | apply Hk].
  - exact Hm.
Qed.

Lemma mapM_rel (R : Ctx -> Ctx -> Prop) {A B} (f : A -> Js B) (l : list A) :
  (forall x, R x x) ->
  (forall x y z, R x y -> R y z -> R x z) ->
  (forall a c, R c (outcome_ctx (f a c))) ->
  forall c, R c (outcome_ctx (mapM f l c)).
Proof.
  intros Hrefl Htrans Hf. induction l as [|x l IH]; intro c; simpl.
  - apply Hrefl.
  - apply bind_rel; [exact Htrans | apply Hf |]. intros y c1.
    apply bind_rel; [exact Htrans | apply IH |]. intros ys c2. apply Hrefl.
Qed.

Lemma store_grows_refl (s : Store) : store_grows s s.
Proof.
  repeat split; auto. exists []. now rewrite app_nil_r.
Qed.

Lemma store_grows_trans (s1 s2 s3 : Store) :
  store_grows s1 s2 -> store_grows s2 s3 -> store_grows s1 s3.
Proof.
  intros [[n1 K1] [S1 [B1 N1]]] [[n2 K2] [S2 [B2 N2]]]. repeat split.
  - exists (n1 ++ n2). now rewrite K2, K1, app_assoc.
  - congruence.
  - congruence.
  - auto.
Qed.

Lemma ingests_refl (c : Ctx) : ingests c c.
Proof. split; [apply store_grows_refl | repeat split]. Qed.

Lemma ingests_trans (c1 c2 c3 : Ctx) : ingests c1 c2 -> ingests c2 c3 -> ingests c1 c3.
Proof.
  intros [G1 [M1 [O1 E1]]] [G2 [M2 [O2 E2]]].
  split; [eapply store_grows_trans; eassumption | repeat split; congruence].
Qed.

Lemma store_add_grows (f : Feature) (s : Store) : store_grows s (store_add f s).
Proof.
  repeat split.
  - rewrite keys_store_add. destruct (mem (id f) (store_getAllIds s)).
    + exists []. now rewrite app_nil_r.
    + now exists [id f].
  - apply selectedIds_store_add.
  - apply batchOpen_store_add.
  - intro H. apply (NoDup_keys_add_all [f] s H).
Qed.

Lemma store_mutate_grows (f : Feature) (s : Store) : store_grows s (store_mutate f s).
Proof.
  assert (K : store_getAllIds (store_mutate f s) = store_getAllIds s)
    by apply map_id_replace_feature.
  repeat split; try reflexivity.
  - exists []. now rewrite app_nil_r.
  - now rewrite K.
Qed.

Lemma with_store_ingests (s : Store) (c : Ctx) :
  store_grows (store c) s -> ingests c (with_store s c).
Proof. intro H. split; [exact H | repeat split]. Qed.

Lemma id_or_hat_ingests (x : option string) (c : Ctx) :
  ingests c (outcome_ctx (id_or_hat x c)).
Proof.
  destruct (id_or_hat_store x c) as [i [c1 [E Hs]]]. rewrite E. simpl.
  unfold id_or_hat, hat, ret in E.
  destruct x as [s|]; [destruct (s =? "")|]; injection E as _ <-;
    (split; [apply store_grows_refl | repeat split]).
Qed.

Lemma new_model_ingests (m : Model) (x : option string) (p : Props) (g : Geometry)
    (c : Ctx) :
  ingests c (outcome_ctx (new_model m x p g c)).
Proof.
  unfold new_model. apply bind_rel; [exact ingests_trans | apply id_or_hat_ingests |].
  intros i c1. destruct m; [apply ingests_refl|].
  destruct (featureTypes (g_type g)) as [[|]|]; apply ingests_refl.
Qed.

Lemma create_feature_ingests (i : string) (f : GeoFeature) (g : Geometry) (c : Ctx) :
  ingests c (outcome_ctx (create_feature i f g c)).
Proof.
  unfold create_feature. destruct (featureTypes_get (g_type g)) as [[m| |]|].
  - apply bind_rel; [exact ingests_trans | apply new_model_ingests |].
    intros nf c1. apply with_store_ingests, store_add_grows.
  - apply ingests_refl.
  - apply ingests_refl.
  - apply ingests_refl.
Qed.

Lemma update_feature_ingests (ex : Feature) (f : GeoFeature) (g : Geometry) (c : Ctx) :
  ingests c (outcome_ctx (update_feature ex f g c)).
Proof.
  unfold update_feature.
  apply bind_rel; [exact ingests_trans | apply with_store_ingests, store_mutate_grows |].
  intros u c1. destruct (negb _).
  - apply with_store_ingests, store_mutate_grows.
  - apply ingests_refl.
Qed.

(** Whatever its outcome, the callback of [add] only lets the store grow. *)
Lemma add_feature_ingests (f : GeoFeature) (c : Ctx) :
  ingests c (outcome_ctx (add_feature f c)).
Proof.
  unfold add_feature.
  apply bind_rel; [exact ingests_trans | apply id_or_hat_ingests |].
  intros i c1. destruct (gf_geometry f) as [g|]; [|apply ingests_refl].
  apply bind_rel; [exact ingests_trans | apply ingests_refl |].
  intros existing c2.
  apply bind_rel; [exact ingests_trans | | intros u c3; apply ingests_refl].
  destruct existing as [ex|]; [destruct (negb _)|];
    auto using create_feature_ingests, update_feature_ingests.
Qed.

Lemma mapM_add_feature_ingests (fs : list GeoFeature) (c : Ctx) :
  ingests c (outcome_ctx (mapM add_feature fs c)).
Proof.
  apply mapM_rel;
    [exact ingests_refl | exact ingests_trans | exact add_feature_ingests].
Qed.

Lemma rendered_effects (c c1 : Ctx) :
  ingests c c1 -> effects (rendered c1) = effects (rendered c).
Proof.
  intros [[_ [_ [B _]]] [_ [_ E]]]. unfold rendered. rewrite B.
  destruct (batchOpen (store c)); simpl; now rewrite E.
Qed.

(** The two ways [add] ends: it returns after its one render request, or it
    throws without one. *)
Lemma api_add_outcome (geojson : GeoJSON) (c : Ctx) :
  exists c1,
    ingests c c1 /\
    ((exists ids, mapM add_feature (normalize geojson) c = Returned ids c1 /\
                  hint_errors geojson = [] /\
                  api_add geojson c = Returned ids (rendered c1)) \/
     (exists e, api_add geojson c = Thrown e c1)).
Proof.
  destruct (hint_errors geojson) as [|issue others] eqn:Eh.
  - rewrite (api_add_no_hint_error geojson c Eh).
    pose proof (mapM_add_feature_ingests (normalize geojson) c) as Hin.
    destruct (mapM add_feature (normalize geojson) c) as [ids c1|e c1] eqn:Em;
      simpl in Hin; exists c1; (split; [exact Hin|]).
    + left. exists ids. repeat split.
      erewrite bind_returned by exact Em. reflexivity.
    + right. exists e. erewrite bind_thrown by exact Em. reflexivity.
  - exists c. split; [apply ingests_refl|]. right. eexists.
    now apply (api_add_hint_error geojson c issue others).
Qed.

(** X3: whatever its outcome, [add] removes no stored id and keeps the
    stored ids in their order (new ids come after them); it leaves the
    selection, the mode and the mode's options as they were. *)
Theorem X3_add_only_grows_store (geojson : GeoJSON) (c : Ctx) :
  let c' := outcome_ctx (api_add geojson c) in
  (exists new, store_getAllIds (store c') = store_getAllIds (store c) ++ new) /\
  selectedIds (store c') = selectedIds (store c) /\
  currentMode c' = currentMode c /\
  currentModeOptions c' = currentModeOptions c.
Proof.
  intro c'. subst c'.
  destruct (api_add_outcome geojson c) as [c1 [[[K [S _]] [M [O _]]] [[ids [_ [_ E]]] | [e E]]]];
    rewrite E; simpl.
  - rewrite store_rendered. repeat split; try assumption.
    + unfold rendered. now destruct (batchOpen (store c1)).
    + unfold rendered. now destruct (batchOpen (store c1)).
  - repeat split; assumption.
Qed.

(** X4: an [add] that returns has requested exactly one render, after the
    whole collection, and sent nothing else; an [add] that throws has sent
    nothing. *)
Theorem X4_add_renders_once (geojson : GeoJSON) (c : Ctx) :
  (forall ids c', api_add geojson c = Returned ids c' ->
                  effects c' = effects (rendered c)) /\
  (forall e c', api_add geojson c = Thrown e c' -> effects c' = effects c).
Proof.
  destruct (api_add_outcome geojson c) as [c1 [Hin [[ids [_ [_ E]]] | [e E]]]];
    rewrite E; split; intros x c' H; try discriminate; injection H as _ <-.
  - now apply rendered_effects.
  - apply Hin.
Qed.

(** *** add, then get *)

Lemma mapM_app_returned {A B} (f : A -> Js B) (l1 l2 : list A) (c c' : Ctx)
    (ys : list B) :
  mapM f (l1 ++ l2) c = Returned ys c' ->
  exists ys1 ys2 c1,
    mapM f l1 c = Returned ys1 c1 /\ mapM f l2 c1 = Returned ys2 c' /\
    ys = ys1 ++ ys2 /\ length ys1 = length l1.
Proof.
  revert c ys. induction l1 as [|x l1 IH]; intros c ys H.
  - exists [], ys, c. repeat split. exact H.
  - simpl in H. unfold bind at 1 in H.
    destruct (f x c) as [y c0|] eqn:Ex; [|discriminate].
    unfold bind at 1 in H.
    destruct (mapM f (l1 ++ l2) c0) as [ys' c2|] eqn:El; [|discriminate].
    cbv [ret] in H. injection H as <- <-.
    destruct (IH c0 ys' El) as [ys1 [ys2 [c1 [H1 [H2 [-> Hlen]]]]]].
    exists (y :: ys1), ys2, c1. repeat split; [| exact H2 | simpl; now rewrite Hlen].
    simpl. erewrite bind_returned by exact Ex.
    erewrite bind_returned by exact H1. reflexivity.
Qed.

Lemma store_get_mutate (j : string) (f : Feature) (s : Store) :
  In (id f) (store_getAllIds s) ->
  store_get j (store_mutate f s) = if j =? id f then Some f else store_get j s.
Proof. intro H. unfold store_get, store_mutate. simpl. now apply find_replace_feature. Qed.

(** What the callback of [add] leaves in the store when it returns a
    non-empty id: under that id a feature with the type, the properties and
    the coordinates of the GeoJSON feature, and under the other ids what was
    there. *)
Lemma add_feature_returned_store (f : GeoFeature) (c c' : Ctx) (i : string) :
  add_feature f c = Returned i c' -> i <> "" -> not_constructor f ->
  exists g ft,
    gf_geometry f = Some g /\ id ft = i /\ type ft = g_type g /\
    properties ft = gf_properties f /\ coordinates ft = g_coordinates g /\
    forall j, store_get j (store c') = if j =? i then Some ft else store_get j (store c).
Proof.
  intros H Hne Hnc. unfold add_feature in H.
  destruct (id_or_hat_store (gf_id f) c) as [i0 [c0 [Ei Hs]]].
  rewrite (bind_returned _ _ _ _ _ Ei) in H.
  destruct (gf_geometry f) as [g|] eqn:Eg; [|discriminate].
  specialize (Hnc g Eg).
  rewrite (bind_returned _ _ c0 c0 (store_get i0 (store c0))) in H by reflexivity.
  assert (Hcreate : bind (create_feature i0 f g) (fun _ => ret i0) c0 = Returned i c' ->
    exists ft, id ft = i /\ type ft = g_type g /\ properties ft = gf_properties f /\
               coordinates ft = g_coordinates g /\
               forall j, store_get j (store c')
                         = if j =? i then Some ft else store_get j (store c)).
  { intro Hk. unfold create_feature, featureTypes_get in Hk.
    destruct (featureTypes (g_type g)) as [m|] eqn:Em.
    2:{ destruct (String.eqb_spec (g_type g) "constructor"); [contradiction|].
        destruct (mem (g_type g) Object_prototype); discriminate. }
    destruct (String.eqb_spec i0 "") as [E0|E0].
    - exfalso. clear H. unfold bind at 1 in Hk.
      match type of Hk with
      | match ?x with _ => _ end = _ => destruct x; [|discriminate]
      end.
      cbv [ret] in Hk. injection Hk as E _. congruence.
    - erewrite (bind_returned (bind _ _)) in Hk.
      2:{ erewrite bind_returned
            by (apply new_model_given; [exact E0 | intro E; rewrite E in Em; exact Em]).
          reflexivity. }
      cbv [ret] in Hk. injection Hk as <- <-.
      exists (mkFeature i0 (g_type g) (gf_properties f) (g_coordinates g) m).
      repeat split. intro j. cbn [with_store store].
      rewrite store_get_add, Hs. reflexivity. }
  destruct (store_get i0 (store c0)) as [ex|] eqn:Eget.
  - destruct (String.eqb_spec (type ex) (g_type g)) as [Et|Et]; cbn [negb] in H.
    + assert (Hex : id ex = i0 /\ In i0 (store_getAllIds (store c0))).
      { unfold store_get in Eget. apply find_has_id in Eget. destruct Eget as [E Hin].
        split; [exact E|]. rewrite <- E. now apply in_map. }
      destruct Hex as [Hid Hin].
      set (updated := set_properties (gf_properties f) ex) in *.
      set (s1 := store_mutate updated (store c0)).
      assert (Hin1 : In i0 (store_getAllIds s1)).
      { unfold s1, store_getAllIds, store_mutate. cbn [features].
        now rewrite map_id_replace_feature. }
      assert (Hget1 : forall j, store_get j s1
                                = if j =? i0 then Some updated else store_get j (store c)).
      { intro j. unfold s1. rewrite store_get_mutate by (cbn; now rewrite Hid).
        cbn [id updated set_properties]. now rewrite Hid, Hs. }
      destruct (isEqual (getCoordinates updated) (g_coordinates g)) eqn:Eq.
      * assert (Hupd : update_feature ex f g c0 = Returned tt (with_store s1 c0)).
        { unfold update_feature. fold updated.
          erewrite bind_returned by reflexivity. now rewrite Eq. }
        rewrite (bind_returned _ _ _ _ _ Hupd) in H.
        cbv [ret] in H. injection H as <- <-.
        apply isEqual_eq in Eq.
        exists g, updated. repeat split; try assumption; reflexivity.
      * assert (Hupd : update_feature ex f g c0
                       = Returned tt
                           (with_store
                              (store_mutate (incomingCoords (g_coordinates g) updated) s1)
                              c0)).
        { unfold update_feature. fold updated.
          erewrite bind_returned by reflexivity. now rewrite Eq. }
        rewrite (bind_returned _ _ _ _ _ Hupd) in H.
        cbv [ret] in H. injection H as <- <-.
        exists g, (incomingCoords (g_coordinates g) updated).
        repeat split; try assumption; try reflexivity.
        intro j. cbn [with_store store].
        rewrite store_get_mutate by (cbn; now rewrite Hid).
        cbn [id incomingCoords updated set_properties]. rewrite Hid.
        destruct (j =? i0) eqn:Ej; [reflexivity|].
        now rewrite Hget1, Ej.
    + destruct (Hcreate H) as [ft Hft]. exists g, ft. split; [reflexivity | exact Hft].
  - destruct (Hcreate H) as [ft Hft]. exists g, ft. split; [reflexivity | exact Hft].
Qed.

Lemma mapM_add_feature_keeps_other (fs : list GeoFeature) (c c' : Ctx)
    (ids : list string) (i : string) :
  Forall not_constructor fs ->
  mapM add_feature fs c = Returned ids c' ->
  Forall (fun j => j <> "") ids -> ~ In i ids ->
  store_get i (store c') = store_get i (store c).
Proof.
  intro Hnc. revert c ids.
  induction fs as [|f fs IH]; intros c ids H Hne Hnot; simpl in H.
  - cbv [ret] in H. now injection H as _ <-.
  - apply Forall_cons_iff in Hnc. destruct Hnc as [Hnf Hnc]. specialize (IH Hnc).
    unfold bind at 1 in H. destruct (add_feature f c) as [j c0|] eqn:Ef; [|discriminate].
    unfold bind at 1 in H.
    destruct (mapM add_feature fs c0) as [ids' c1|] eqn:Em; [|discriminate].
    cbv [ret] in H. injection H as <- <-.
    inversion Hne as [|x xs Hj Hne']. subst x xs.
    rewrite (IH c0 ids' Em Hne') by (intro; apply Hnot; now right).
    destruct (add_feature_returned_store f c c0 j Ef Hj Hnf)
      as [g [ft [_ [_ [_ [_ [_ Hget]]]]]]].
    rewrite Hget. destruct (String.eqb_spec i j) as [E|E]; [|reflexivity].
    elim Hnot. now left.
Qed.

(** X1: after an [add] that returns, [get] of the id returned for a feature
    gives that feature back (its properties and its geometry) under that
    id, provided no later feature of the collection got the same id and no
    feature of the collection has the geometry type ["constructor"] (for
    which line 76 finds the function [Object] and no feature is built).  Ids
    are taken to be non-empty, as the generated ones are. *)
Theorem X1_add_then_get (geojson : GeoJSON) (c c' : Ctx) (ids : list string)
    (pre post : list GeoFeature) (f : GeoFeature) (i : string) :
  api_add geojson c = Returned ids c' ->
  Forall (fun j => j <> "") ids ->
  Forall not_constructor (normalize geojson) ->
  normalize geojson = pre ++ f :: post ->
  nth_error ids (length pre) = Some i ->
  ~ In i (skipn (S (length pre)) ids) ->
  exists g,
    gf_geometry f = Some g /\
    api_get i c' = Returned (Some (mkGeoFeature (Some i) (gf_properties f) (Some g))) c'.
Proof.
  intros H Hne Hnc Hn Hnth Hlater.
  destruct (api_add_outcome geojson c) as [c1 [_ [[ids' [Em [_ E]]] | [e E]]]];
    rewrite E in H; [|discriminate].
  injection H as -> <-. rewrite Hn in Em, Hnc.
  apply Forall_app in Hnc. destruct Hnc as [_ Hnc].
  apply Forall_cons_iff in Hnc. destruct Hnc as [Hnf Hnpost].
  destruct (mapM_app_returned _ _ _ _ _ _ Em) as [ids1 [ids2 [c2 [H1 [H2 [-> Hlen]]]]]].
  simpl in H2. unfold bind at 1 in H2.
  destruct (add_feature f c2) as [j c3|] eqn:Ef; [|discriminate].
  unfold bind at 1 in H2.
  destruct (mapM add_feature post c3) as [ids3 c4|] eqn:Ep; [|discriminate].
  cbv [ret] in H2. injection H2 as <- <-.
  rewrite <- Hlen in Hnth, Hlater.
  rewrite nth_error_app2, Nat.sub_diag in Hnth by lia. simpl in Hnth. injection Hnth as ->.
  assert (Hskip : skipn (S (length ids1)) (ids1 ++ i :: ids3) = ids3).
  { replace (ids1 ++ i :: ids3) with ((ids1 ++ [i]) ++ ids3) by now rewrite <- app_assoc.
    replace (S (length ids1)) with (length (ids1 ++ [i]))
      by (rewrite length_app; simpl; lia).
    apply skipn_all2_app || (rewrite skipn_app, skipn_all, Nat.sub_diag; reflexivity). }
  rewrite Hskip in Hlater.
  apply Forall_app in Hne. destruct Hne as [_ Hne].
  inversion Hne as [|x xs Hi Hne3]. subst x xs.
  destruct (add_feature_returned_store f c2 c3 i Ef Hi Hnf)
    as [g [ft [Hg [Hid [Ht [Hp [Hc Hget]]]]]]].
  exists g. split; [exact Hg|].
  unfold api_get. erewrite bind_returned by reflexivity.
  rewrite store_rendered.
  rewrite (mapM_add_feature_keeps_other post c3 c4 ids3 i Hnpost Ep Hne3 Hlater).
  rewrite Hget, String.eqb_refl. unfold ret, toGeoJSON.
  rewrite Hid, Ht, Hp, Hc. now destruct g.
Qed.

Lemma id_or_hat_assigned (f : GeoFeature) (c c' : Ctx) (i : string) :
  id_or_hat (gf_id f) c = Returned i c' -> id_assigned f i.
Proof.
  unfold id_or_hat, id_assigned, hat, ret.
  destruct (gf_id f) as [s|]; [destruct (s =? "")|]; intro H; injection H as <- _;
    eauto.
Qed.

Lemma add_feature_assigned (f : GeoFeature) (c c' : Ctx) (i : string) :
  add_feature f c = Returned i c' -> id_assigned f i.
Proof.
  unfold add_feature. intro H.
  destruct (id_or_hat_store (gf_id f) c) as [i0 [c0 [Ei _]]].
  rewrite (bind_returned _ _ _ _ _ Ei) in H.
  destruct (gf_geometry f) as [g|]; [|discriminate].
  unfold bind at 1 in H. destruct (ctx_store_get i0 c0) as [ex c1|]; [|discriminate].
  unfold bind at 1 in H.
  destruct (match ex with
            | Some internalFeature =>
                if negb (type internalFeature =? g_type g)
                then create_feature i0 f g
                else update_feature internalFeature f g
            | None => create_feature i0 f g
            end c1); [|discriminate].
  cbv [ret] in H. injection H as <- _. now apply (id_or_hat_assigned f c c0).
Qed.

(** X2: an [add] that returns gives one id per feature of the normalized
    collection, in the order of the features: the own id of the feature
    when it has a non-empty one, an id from the generator otherwise. *)
Theorem X2_add_returns_ids_in_order (geojson : GeoJSON) (c c' : Ctx)
    (ids : list string) :
  api_add geojson c = Returned ids c' ->
  Forall2 id_assigned (normalize geojson) ids.
Proof.
  intro H.
  destruct (api_add_outcome geojson c) as [c1 [_ [[ids' [Em [_ E]]] | [e E]]]];
    rewrite E in H; [|discriminate].
  injection H as -> _. clear E. revert c ids Em.
  induction (normalize geojson) as [|f fs IH]; intros c ids Em; simpl in Em.
  - cbv [ret] in Em. injection Em as <- _. constructor.
  - unfold bind at 1 in Em. destruct (add_feature f c) as [j c0|] eqn:Ef; [|discriminate].
    unfold bind at 1 in Em.
    destruct (mapM add_feature fs c0) as [ids' c2|] eqn:Efs; [|discriminate].
    cbv [ret] in Em. injection Em as <- <-. constructor.
    + exact (add_feature_assigned f c c0 j Ef).
    + exact (IH c0 ids' Efs).
Qed.

(** X5: validator issues of level ['message'] do not stop [add]; the error
    it throws carries the message of the first issue of another level, and
    nothing has changed then. *)
Theorem X5_add_throws_first_error (geojson : GeoJSON) (c : Ctx)
    (infos rest : list HintIssue) (e : HintIssue) :
  hint geojson = infos ++ e :: rest ->
  Forall (fun x => level x = Some "message") infos ->
  level e <> Some "message" ->
  api_add geojson c = Thrown (Err (message e)) c.
Proof.
  intros Hh Hinfos He.
  apply (api_add_hint_error geojson c e
           (filter (fun x => match level x with
                             | Some l => negb (l =? "message")
                             | None => true
                             end) rest)).
  unfold hint_errors. rewrite Hh, filter_app.
  rewrite filter_none.
  - simpl. destruct (level e) as [l|]; [|reflexivity].
    destruct (String.eqb_spec l "message") as [E|E]; [|reflexivity].
    elim He. now rewrite E.
  - intros x Hx. rewrite Forall_forall in Hinfos. now rewrite (Hinfos x Hx).
Qed.

(** *** set, in every outcome *)

Lemma rendered_in_batch (c : Ctx) : batchOpen (store c) = true -> rendered c = c.
Proof. intro H. unfold rendered. now rewrite H. Qed.

Lemma api_set_outcome (fs : list GeoFeature) (c : Ctx) :
  exists c1,
    ingests (batch_opened c) c1 /\
    ((exists e, api_add (FeatureCollection fs) (batch_opened c) = Thrown e c1 /\
                api_set (FeatureCollection fs) c = Thrown e c1) \/
     (exists ids, mapM add_feature fs (batch_opened c) = Returned ids c1 /\
                  api_set (FeatureCollection fs) c = Returned ids (set_closed ids c c1))).
Proof.
  destruct (api_add_outcome (FeatureCollection fs) (batch_opened c))
    as [c1 [Hin [[ids [Em [_ E]]] | [e E]]]]; exists c1; (split; [exact Hin|]).
  - right. exists ids. split; [exact Em|].
    assert (Hb : batchOpen (store c1) = true).
    { destruct Hin as [[_ [_ [B _]]] _]. now rewrite B. }
    rewrite (rendered_in_batch c1 Hb) in E.
    unfold api_set. fold (batch_opened c).
    rewrite (bind_returned _ _ c (batch_opened c) tt) by reflexivity.
    rewrite (bind_returned _ _ (batch_opened c) (batch_opened c)
               (store_getAllIds (store c))) by reflexivity.
    rewrite (bind_returned _ _ _ _ _ E).
    unfold set_closed.
    set (D := filter (fun i => negb (mem i ids)) (store_getAllIds (store c))).
    set (d := with_store (store_delete D (store c1)) c1).
    destruct (0 <? length D)%nat.
    + erewrite bind_returned.
      2:{ erewrite bind_returned by apply api_delete_run. reflexivity. }
      fold d.
      assert (Hd : rendered d = d) by (apply rendered_in_batch; exact Hb).
      rewrite Hd. reflexivity.
    + reflexivity.
  - left. exists e. split; [exact E|].
    unfold api_set. fold (batch_opened c).
    rewrite (bind_returned _ _ c (batch_opened c) tt) by reflexivity.
    rewrite (bind_returned _ _ (batch_opened c) (batch_opened c)
               (store_getAllIds (store c))) by reflexivity.
    now rewrite (bind_thrown _ _ _ _ _ E).
Qed.

(** X6: a [set] that throws either was given something that is not a
    FeatureCollection, and has then changed nothing, or rethrows the error
    of its [add]; in that case the render batch it opened is still open
    (its closer on api.js line 55 is not reached) and nothing was sent. *)
Theorem X6_set_failure_leaves_batch_open (X : GeoJSON) (c c' : Ctx) (e : Error) :
  api_set X c = Thrown e c' ->
  ((forall fs, X <> FeatureCollection fs) /\
   e = Err "Invalid FeatureCollection" /\ c' = c) \/
  (api_add X (batch_opened c) = Thrown e c' /\
   batchOpen (store c') = true /\ effects c' = effects c).
Proof.
  intro H. destruct X as [fs|f|g].
  - right. destruct (api_set_outcome fs c) as [c1 [Hin [[e1 [Ea Es]] | [ids [_ Es]]]]];
      rewrite Es in H; [|discriminate].
    injection H as -> ->. split; [exact Ea|].
    destruct Hin as [[_ [_ [B _]]] [_ [_ E]]]. split; [now rewrite B | now rewrite E].
  - left. cbn in H. injection H as <- <-. repeat split. discriminate.
  - left. cbn in H. injection H as <- <-. repeat split. discriminate.
Qed.

(** X7: a [set] that returns has closed its render batch and requested
    exactly one render, however many features it added or deleted; before
    that render it has at most forced the controller from direct-select to
    simple-select. *)
Theorem X7_set_renders_once (X : GeoJSON) (c c1 : Ctx) (ids : list string) :
  api_set X c = Returned ids c1 ->
  batchOpen (store c1) = false /\
  ((currentMode c1 = currentMode c /\ effects c1 = effects c ++ [Render]) \/
   (currentMode c = DIRECT_SELECT /\ currentMode c1 = SIMPLE_SELECT /\
    effects c1 = effects c ++ [ModeTransition SIMPLE_SELECT None; Render])).
Proof.
  intro H. destruct X as [fs|f|g]; [|discriminate|discriminate].
  destruct (api_set_outcome fs c) as [c0 [Hin [[e1 [_ Es]] | [ids0 [_ Es]]]]];
    rewrite Es in H; [discriminate|].
  injection H as -> <-. split; [reflexivity|].
  destruct Hin as [_ [M [_ E]]]. cbn in M, E.
  unfold set_closed.
  set (D := filter (fun i => negb (mem i ids)) (store_getAllIds (store c))).
  set (d := with_store (store_delete D (store c0)) c0).
  destruct (0 <? length D)%nat.
  - destruct (Mode_eqb (currentMode c0) DIRECT_SELECT) eqn:Em; cbn [andb].
    + destruct (length (selectedIds (store d)) =? 0)%nat.
      * right. apply Mode_eqb_eq in Em. rewrite M in Em.
        split; [exact Em|]. split; [reflexivity|].
        cbn. rewrite E, <- app_assoc. reflexivity.
      * left. cbn. now rewrite M, E.
    + left. cbn. now rewrite M, E.
  - left. cbn. now rewrite M, E.
Qed.

Lemma In_keys_get (k : string) (s : Store) :
  In k (store_getAllIds s) <-> store_get k s <> None.
Proof.
  unfold store_get, store_getAllIds. rewrite find_has_id_none.
  destruct (in_dec string_dec k (map id (features s))); tauto.
Qed.

Lemma mapM_add_feature_keys (fs : list GeoFeature) (c c' : Ctx) (ids : list string) :
  Forall not_constructor fs ->
  mapM add_feature fs c = Returned ids c' ->
  Forall (fun j => j <> "") ids ->
  forall k, In k (store_getAllIds (store c'))
            <-> In k ids \/ In k (store_getAllIds (store c)).
Proof.
  intro Hnc. revert c ids.
  induction fs as [|f fs IH]; intros c ids H Hne k; simpl in H.
  - cbv [ret] in H. injection H as <- <-. simpl. tauto.
  - apply Forall_cons_iff in Hnc. destruct Hnc as [Hnf Hnc]. specialize (IH Hnc).
    unfold bind at 1 in H. destruct (add_feature f c) as [j c0|] eqn:Ef; [|discriminate].
    unfold bind at 1 in H.
    destruct (mapM add_feature fs c0) as [ids' c1|] eqn:Em; [|discriminate].
    cbv [ret] in H. injection H as <- <-.
    inversion Hne as [|x xs Hj Hne']. subst x xs.
    rewrite (IH c0 ids' Em Hne' k).
    destruct (add_feature_returned_store f c c0 j Ef Hj Hnf)
      as [g [ft [_ [_ [_ [_ [_ Hget]]]]]]].
    rewrite (In_keys_get k (store c0)), Hget, (In_keys_get k (store c)).
    simpl. destruct (String.eqb_spec k j) as [->|E].
    + split; [intros _; left; now left | intros _; right; discriminate].
    + split.
      * intros [H|H]; [left; now right | now right].
      * intros [[H|H]|H]; [congruence | now left | now right].
Qed.

(** X8: after a [set] that returns, the ids in the store are the ids it
    returned, no more and no less, provided no feature of the collection has
    the geometry type ["constructor"] (for which line 76 finds the function
    [Object] and [set] returns an id without a stored feature).  Ids are
    taken to be non-empty, as the generated ones are. *)
Theorem X8_set_stores_returned_ids (X : GeoJSON) (c c1 : Ctx) (ids : list string) :
  api_set X c = Returned ids c1 ->
  Forall (fun j => j <> "") ids ->
  Forall not_constructor (normalize X) ->
  forall k, In k (store_getAllIds (store c1)) <-> In k ids.
Proof.
  intros H Hne Hnc k. destruct X as [fs|f|g]; [|discriminate|discriminate].
  cbn [normalize] in Hnc.
  destruct (api_set_outcome fs c) as [c0 [_ [[e1 [_ Es]] | [ids0 [Em Es]]]]];
    rewrite Es in H; [discriminate|].
  injection H as -> <-.
  pose proof (mapM_add_feature_keys fs (batch_opened c) c0 ids Hnc Em Hne) as Hkeys.
  cbn [batch_opened with_store with_batch store] in Hkeys.
  change (store_getAllIds (mkStore (features (store c)) (selectedIds (store c)) true))
    with (store_getAllIds (store c)) in Hkeys.
  unfold set_closed.
  set (D := filter (fun i => negb (mem i ids)) (store_getAllIds (store c))).
  assert (HD : forall j, In j D <-> In j (store_getAllIds (store c)) /\ ~ In j ids).
  { intro j. unfold D. rewrite filter_In, negb_true_iff, mem_false. tauto. }
  assert (Hdel : In k (store_getAllIds (store_delete D (store c0))) <-> In k ids).
  { unfold store_getAllIds, store_delete. cbn [features].
    rewrite (map_id_filter (fun i => negb (mem i D))), filter_In.
    fold (store_getAllIds (store c0)). rewrite negb_true_iff, mem_false, Hkeys, HD.
    destruct (in_dec string_dec k ids); tauto. }
  destruct (0 <? length D)%nat eqn:EL.
  - destruct (_ && _); exact Hdel.
  - assert (D = []) by (destruct D; [reflexivity | discriminate]).
    cbn [emit with_store with_batch store].
    change (In k (store_getAllIds (store c0)) <-> In k ids).
    rewrite Hkeys. split; [|now left]. intros [Hk|Hk]; [exact Hk|].
    destruct (in_dec string_dec k ids) as [Hi|Hi]; [exact Hi|].
    assert (HkD : In k D) by (apply HD; now split). rewrite H in HkD. destruct HkD.
Qed.

(** *** The store invariants *)

Lemma store_grows_inv (s s' : Store) : store_grows s s' -> store_inv s -> store_inv s'.
Proof.
  intros [[new K] [S [_ N]]] [Hnd Hv]. split; [now apply N|].
  unfold selection_valid in *. rewrite S, K. intros i Hi.
  apply in_or_app. left. now apply Hv.
Qed.

Lemma store_delete_inv (ids : list string) (s : Store) :
  store_inv s -> store_inv (store_delete ids s).
Proof.
  intros [Hnd Hv]. split.
  - unfold store_getAllIds, store_delete. cbn [features].
    rewrite (map_id_filter (fun i => negb (mem i ids))). now apply NoDup_filter.
  - unfold selection_valid, store_getAllIds, store_delete in *. cbn [features selectedIds].
    rewrite (map_id_filter (fun i => negb (mem i ids))).
    intros i Hi. apply filter_In in Hi. destruct Hi as [Hi Hq].
    apply filter_In. split; [now apply Hv | exact Hq].
Qed.

Lemma with_batch_inv (b : bool) (s : Store) : store_inv s -> store_inv (with_batch b s).
Proof. intro H. exact H. Qed.



Lemma store_add_all_grows (fs : list Feature) (s : Store) :
  store_grows s (store_add_all fs s).
Proof.
  revert s. induction fs as [|f fs IH]; intro s; simpl; [apply store_grows_refl|].
  eapply store_grows_trans; [apply store_add_grows | apply IH].
Qed.

(** X9: [add] and [set] keep the invariants of the store (one feature per
    id, every selected id stored) in every outcome, also when they throw. *)
Theorem X9_add_set_keep_store_invariants (geojson : GeoJSON) (c : Ctx) :
  store_inv (store c) ->
  store_inv (store (outcome_ctx (api_add geojson c))) /\
  store_inv (store (outcome_ctx (api_set geojson c))).
Proof.
  intro Hinv. split.
  - destruct (api_add_outcome geojson c) as [c1 [[G _] [[ids [_ [_ E]]] | [e E]]]];
      rewrite E; simpl; [rewrite store_rendered|]; now apply (store_grows_inv (store c)).
  - destruct geojson as [fs|f|g]; [|exact Hinv|exact Hinv].
    destruct (api_set_outcome fs c) as [c1 [[G _] [[e [_ E]] | [ids [_ E]]]]];
      rewrite E; simpl.
    + now apply (store_grows_inv (store (batch_opened c))).
    + assert (H1 : store_inv (store c1))
        by now apply (store_grows_inv (store (batch_opened c))).
      unfold set_closed.
      destruct (0 <? length _)%nat; [|exact H1].
      destruct (_ && _); cbn [emit with_store store forced_to_simple_select];
        apply with_batch_inv; now apply store_delete_inv.
Qed.

Lemma api_changeMode_run (m : Mode) (opts : option ModeOptions) (c : Ctx) :
  let o := match opts with Some o => o | None => noOptions end in
  api_changeMode m opts c
  = if Mode_eqb m SIMPLE_SELECT && Mode_eqb (currentMode c) SIMPLE_SELECT
    then Returned api
           (if stringSetsAreEqual (ids_or_none (featureIds o)) (selectedIds (store c))
            then c
            else rendered (with_store (store_setSelected (featureIds o) (store c)) c))
    else if Mode_eqb m DIRECT_SELECT && Mode_eqb (currentMode c) DIRECT_SELECT
            && option_string_eqb (featureId o) (hd_error (selectedIds (store c)))
         then Returned api c
         else (ctx_events_changeMode m (Some o) ;; ret api) c.
Proof.
  intro o. unfold api_changeMode. fold o.
  erewrite bind_returned by reflexivity.
  erewrite bind_returned by reflexivity.
  unfold store_getSelectedIds, ids_or_none.
  destruct (Mode_eqb m SIMPLE_SELECT && Mode_eqb (currentMode c) SIMPLE_SELECT).
  - destruct (stringSetsAreEqual _ _); reflexivity.
  - destruct (_ && _ && _); reflexivity.
Qed.



(** *** mergeSelectedFeatures and splitSelectedFeatures, in every outcome *)

Lemma dead_or_all_live (l : list (option Feature)) :
  In None l \/ exists fs, l = map Some fs.
Proof.
  induction l as [|o l IH].
  - right. exists []. reflexivity.
  - destruct o as [f|]; [|left; now left].
    destruct IH as [H | [fs ->]]; [left; now right|].
    right. exists (f :: fs). reflexivity.
Qed.

Lemma merge_cases (featureIds : option (list string)) (c : Ctx) :
  ((featureIds = None \/ exists ids, featureIds = Some ids /\ length ids < 2) /\
   api_mergeSelectedFeatures featureIds c = Returned undefined c) \/
  (exists ids, featureIds = Some ids /\ 2 <= length ids /\
               In None (resolve ids (store c)) /\
               api_mergeSelectedFeatures featureIds c = Thrown TypeError c) \/
  (exists ids first rest,
     featureIds = Some ids /\
     resolve ids (store c) = map Some (first :: rest) /\ rest <> [] /\
     featureTypes ("Multi" ++ type first) <> Some MultiFeature /\
     api_mergeSelectedFeatures featureIds c = Thrown TypeError (bump 1 c)) \/
  (exists ids first rest,
     featureIds = Some ids /\
     resolve ids (store c) = map Some (first :: rest) /\ rest <> [] /\
     featureTypes ("Multi" ++ type first) = Some MultiFeature /\
     api_mergeSelectedFeatures featureIds c
     = Returned api
         (emit (Fire CREATE [toGeoJSON (merged_feature first (first :: rest) c)])
            (rendered
               (with_store
                  (store_delete ids
                     (store_add (merged_feature first (first :: rest) c) (store c)))
                  (bump 1 c))))).
Proof.
  destruct featureIds as [ids|]; [|left; split; [now left | reflexivity]].
  destruct (Nat.ltb_spec (length ids) 2) as [Hlt|Hge].
  - left. split; [right; now exists ids|].
    unfold api_mergeSelectedFeatures.
    destruct (Nat.ltb_spec (length ids) 2); [reflexivity | lia].
  - right. destruct (dead_or_all_live (resolve ids (store c))) as [Hdead | [fs Hfs]].
    + left. exists ids. repeat split; try assumption.
      now apply merge_throws_on_dead_id.
    + right.
      assert (Hlen : length fs = length ids).
      { rewrite <- (resolve_length ids (store c)), Hfs. now rewrite length_map. }
      destruct fs as [|first rest]; [simpl in Hlen; lia|].
      assert (Hrest : rest <> []) by (intros ->; simpl in Hlen; lia).
      assert (Hdec : featureTypes ("Multi" ++ type first) = Some MultiFeature \/
                     featureTypes ("Multi" ++ type first) <> Some MultiFeature).
      { destruct (featureTypes ("Multi" ++ type first)) as [[|]|];
          [right; discriminate | now left | right; discriminate]. }
      destruct Hdec as [Hsup | Hun].
      * right. exists ids, first, rest.
        split; [reflexivity|]. split; [exact Hfs|]. split; [exact Hrest|].
        split; [exact Hsup|]. now apply (merge_run ids c first rest).
      * left. exists ids, first, rest.
        split; [reflexivity|]. split; [exact Hfs|]. split; [exact Hrest|].
        split; [exact Hun|]. now apply (merge_run_unsupported ids c first rest).
Qed.

Lemma store_get_deleted (i : string) (ids : list string) (s : Store) :
  store_get i (store_delete ids s) = if mem i ids then None else store_get i s.
Proof.
  unfold store_get, store_delete. cbn [features].
  rewrite (find_filter_by_id (fun j => negb (mem j ids))). now destruct (mem i ids).
Qed.

Lemma split_composite_store (f : Feature) (c : Ctx) :
  store (split_composite f c)
  = store_delete [id f]
      (store_add_all
         (fresh_parts (baseType (type f)) (hatCount c) (parts_of (coordinates f)))
         (store c)).
Proof. unfold split_composite. now rewrite store_rendered. Qed.

Lemma split_loop_inv (l : list (option Feature)) (acc created : list GeoFeature)
    (c c' : Ctx) :
  store_inv (store c) ->
  foldM split_feature l acc c = Returned created c' ->
  store_inv (store c').
Proof.
  revert acc c. induction l as [|o l IH]; intros acc c Hinv H; simpl in H.
  - cbv [ret] in H. now injection H as _ <-.
  - destruct (instanceof_MultiFeature o) eqn:Hi.
    + apply instanceof_true in Hi. destruct Hi as [f [-> Hm]].
      rewrite (bind_returned _ _ _ _ _ (split_feature_composite f acc c Hm)) in H.
      apply IH in H; [exact H|].
      rewrite split_composite_store. apply store_delete_inv.
      apply (store_grows_inv (store c)); [apply store_add_all_grows | exact Hinv].
    + rewrite (bind_returned _ _ _ _ _ (split_feature_skip o acc c Hi)) in H.
      now apply IH in H.
Qed.

(** X11: [mergeSelectedFeatures] and [splitSelectedFeatures] keep the
    invariants of the store (one feature per id, every selected id stored)
    in every outcome. *)
Theorem X11_merge_split_keep_store_invariants (featureIds : option (list string))
    (c : Ctx) :
  store_inv (store c) ->
  store_inv (store (outcome_ctx (api_mergeSelectedFeatures featureIds c))) /\
  store_inv (store (outcome_ctx (api_splitSelectedFeatures featureIds c))).
Proof.
  intro Hinv. split.
  - destruct (merge_cases featureIds c)
      as [[_ E] | [[ids [_ [_ [_ E]]]] | [[ids [first [rest [_ [_ [_ [_ E]]]]]]]
                                          | [ids [first [rest [_ [_ [_ [_ E]]]]]]]]]];
      rewrite E; cbn [outcome_ctx]; try exact Hinv.
    cbn [emit store]. rewrite store_rendered. cbn [with_store store].
    apply store_delete_inv.
    apply (store_grows_inv (store c)); [apply store_add_grows | exact Hinv].
  - destruct featureIds as [ids|]; [|exact Hinv].
    destruct (split_run ids c) as [created [c1 [E [_ Hrun]]]].
    rewrite Hrun. cbn [outcome_ctx emit store].
    now apply (split_loop_inv _ _ _ _ _ Hinv E).
Qed.

(** X19: [mergeSelectedFeatures] ends in one of four ways.  With no list or
    fewer than two ids it returns [undefined]; with two or more ids of which
    one is not in the store it throws a TypeError; in both cases it has
    changed nothing.  With two or more ids that are all in the store, it
    depends on the type of the first feature.  When that type is not Point,
    LineString or Polygon, the composite type is unsupported and the
    constructor of the composite throws a TypeError: nothing is stored,
    deleted or fired, and only the generated id is used up.  When it is one
    of the three, the call returns the api object, having added the
    composite, deleted the given ids and fired one creation event. *)
Theorem X19_merge_all_or_nothing (featureIds : option (list string)) (c : Ctx) :
  ((featureIds = None \/ exists ids, featureIds = Some ids /\ length ids < 2) /\
   api_mergeSelectedFeatures featureIds c = Returned undefined c) \/
  (exists ids, featureIds = Some ids /\ 2 <= length ids /\
               In None (resolve ids (store c)) /\
               api_mergeSelectedFeatures featureIds c = Thrown TypeError c) \/
  (exists ids first rest,
     featureIds = Some ids /\
     resolve ids (store c) = map Some (first :: rest) /\ rest <> [] /\
     featureTypes (type first) <> Some SinglePart /\
     api_mergeSelectedFeatures featureIds c = Thrown TypeError (bump 1 c)) \/
  (exists ids first rest,
     featureIds = Some ids /\
     resolve ids (store c) = map Some (first :: rest) /\ rest <> [] /\
     featureTypes (type first) = Some SinglePart /\
     api_mergeSelectedFeatures featureIds c
     = Returned api
         (emit (Fire CREATE [toGeoJSON (merged_feature first (first :: rest) c)])
            (rendered
               (with_store
                  (store_delete ids
                     (store_add (merged_feature first (first :: rest) c) (store c)))
                  (bump 1 c))))).
Proof.
  destruct (merge_cases featureIds c)
    as [H | [H | [[ids [first [rest [Hi [Hr [Hn [Ht E]]]]]]]
                  | [ids [first [rest [Hi [Hr [Hn [Ht E]]]]]]]]]].
  - left. exact H.
  - right. left. exact H.
  - right. right. left. exists ids, first, rest.
    repeat (split; [assumption|]). split; [|exact E].
    intro Hs. apply Ht. now apply Multi_supported.
  - right. right. right. exists ids, first, rest.
    repeat (split; [assumption|]). split; [|exact E].
    now apply Multi_supported.
Qed.

(** X18: after a merge that returns the api object, none of the given ids
    is in the store any more: the features that went into the composite are
    gone, and so are the features that were skipped for their type. *)
Theorem X18_merge_deletes_every_given_id (ids : list string) (c c' : Ctx) :
  api_mergeSelectedFeatures (Some ids) c = Returned api c' ->
  forall i, In i ids -> api_get i c' = Returned None c'.
Proof.
  intros H i Hi.
  destruct (merge_cases (Some ids) c)
    as [[_ E] | [[ids' [_ [_ [_ E]]]] | [[ids' [first [rest [Hs [_ [_ [_ E]]]]]]]
                                         | [ids' [first [rest [Hs [_ [_ [_ E]]]]]]]]]];
    rewrite E in H; try discriminate.
  injection Hs as <-. injection H as <-.
  unfold api_get. erewrite bind_returned by reflexivity.
  cbn [emit store]. rewrite store_rendered. cbn [with_store store].
  rewrite store_get_deleted.
  apply mem_In in Hi. now rewrite Hi.
Qed.

(** *** delete, deleteAll and get *)

Lemma api_get_run (i : string) (c : Ctx) :
  api_get i c = Returned (option_map toGeoJSON (store_get i (store c))) c.
Proof.
  unfold api_get. erewrite bind_returned by reflexivity.
  now destruct (store_get i (store c)).
Qed.

(** X12: [delete] never throws and returns the api object; after it, [get]
    of a deleted id gives [undefined] and [get] of any other id gives what
    it gave before. *)
Theorem X12_delete_then_get (ids : list string) (c : Ctx) :
  exists c',
    api_delete ids c = Returned api c' /\
    forall i, api_get i c'
              = Returned (if mem i ids then None
                          else option_map toGeoJSON (store_get i (store c))) c'.
Proof.
  destruct (api_delete_store ids c) as [c' [E Hs]].
  exists c'. split; [exact E|]. intro i.
  rewrite api_get_run, Hs, store_get_deleted. now destruct (mem i ids).
Qed.

(** X13: [deleteAll] never throws and returns the api object; after it the
    store has no feature, so [getAll] gives the empty FeatureCollection and
    [get] gives [undefined] for every id. *)
Theorem X13_deleteAll_empties_store (c : Ctx) :
  exists c',
    api_deleteAll c = Returned api c' /\
    features (store c') = [] /\
    api_getAll c' = Returned (FeatureCollection []) c' /\
    forall i, api_get i c' = Returned None c'.
Proof.
  rewrite api_deleteAll_run.
  set (d := with_store (store_delete (store_getAllIds (store c)) (store c)) c).
  assert (Hd : features (store d) = []).
  { unfold d, store_delete. cbn [with_store store features].
    apply filter_none. intros f Hf. apply negb_false_iff, mem_In.
    now apply in_map. }
  eexists. split; [reflexivity|].
  assert (Hs : features (store (if Mode_eqb (currentMode c) DIRECT_SELECT
                                then forced_to_simple_select d else rendered d)) = []).
  { destruct (Mode_eqb _ _); [exact Hd | now rewrite store_rendered]. }
  split; [exact Hs|]. split.
  - unfold api_getAll, gets. now rewrite Hs.
  - intro i. rewrite api_get_run. unfold store_get. now rewrite Hs.
Qed.

(** *** changeMode and getSelected *)

Lemma option_string_eqb_eq (a b : option string) :
  option_string_eqb a b = true <-> a = b.
Proof.
  destruct a as [x|], b as [y|]; simpl; split; intro H; try discriminate;
    try reflexivity.
  - apply String.eqb_eq in H. now subst.
  - injection H as ->. apply String.eqb_refl.
Qed.

(** X15: in direct-select, a request for direct-select is a no-op exactly
    when the requested [featureId] is the first selected id (both may be
    [undefined]: no [featureId] and an empty selection); otherwise the call
    is the full transition of line 154: the mode-change handler is called
    with direct-select and the options, and the api object is returned when
    the handler returns. *)
Theorem X15_changeMode_direct_select_guard (opts : option ModeOptions) (c : Ctx) :
  currentMode c = DIRECT_SELECT ->
  let o := match opts with Some o => o | None => noOptions end in
  (featureId o = hd_error (selectedIds (store c)) ->
   api_changeMode DIRECT_SELECT opts c = Returned api c) /\
  (featureId o <> hd_error (selectedIds (store c)) ->
   api_changeMode DIRECT_SELECT opts c
   = (ctx_events_changeMode DIRECT_SELECT (Some o) ;; ret api) c).
Proof.
  intros Hm o. rewrite api_changeMode_run. fold o. rewrite Hm. cbn [Mode_eqb andb].
  split; intro H.
  - apply option_string_eqb_eq in H. now rewrite H.
  - destruct (option_string_eqb _ _) eqn:E; [|reflexivity].
    apply option_string_eqb_eq in E. contradiction.
Qed.

(** X16: a request for a mode other than the current one never stops at a
    guard: it is the full transition of line 154, in which the mode-change
    handler is called with the requested mode and with the given options or
    the default [{}].  The API adds nothing of its own: it returns the api
    object when the handler returns, and the handler's error is the error
    of the call. *)
Theorem X16_changeMode_to_other_mode (m : Mode) (opts : option ModeOptions) (c : Ctx) :
  m <> currentMode c ->
  api_changeMode m opts c
  = (ctx_events_changeMode m
       (Some (match opts with Some o => o | None => noOptions end)) ;; ret api) c.
Proof.
  intro Hne. rewrite api_changeMode_run.
  destruct (Mode_eqb m SIMPLE_SELECT && Mode_eqb (currentMode c) SIMPLE_SELECT) eqn:E1.
  - apply andb_true_iff in E1. destruct E1 as [Em Ec].
    apply Mode_eqb_eq in Em, Ec. congruence.
  - destruct (Mode_eqb m DIRECT_SELECT && Mode_eqb (currentMode c) DIRECT_SELECT
              && option_string_eqb _ _) eqn:E2; [|reflexivity].
    apply andb_true_iff in E2. destruct E2 as [E2 _].
    apply andb_true_iff in E2. destruct E2 as [Em Ec].
    apply Mode_eqb_eq in Em, Ec. congruence.
Qed.

Lemma resolve_stored (ids : list string) (s : Store) :
  incl ids (store_getAllIds s) ->
  exists fs, resolve ids s = map Some fs /\ map id fs = ids.
Proof.
  induction ids as [|i ids IH]; intro H.
  - exists []. split; reflexivity.
  - destruct IH as [fs [Hr Hi]]; [intros j Hj; apply H; now right|].
    assert (Hin : In i (store_getAllIds s)) by (apply H; now left).
    apply In_keys_get in Hin.
    destruct (store_get i s) as [f|] eqn:E; [|contradiction].
    exists (f :: fs). simpl. rewrite E, Hr. split; [reflexivity|].
    unfold store_get in E. apply find_has_id in E. destruct E as [-> _].
    now rewrite Hi.
Qed.

Lemma mapM_toGeoJSON_run (fs : list Feature) (c : Ctx) :
  mapM (fun feature : option Feature =>
          match feature with
          | Some f => ret (toGeoJSON f)
          | None => throw TypeError
          end) (map Some fs) c
  = Returned (map toGeoJSON fs) c.
Proof.
  induction fs as [|f fs IH]; simpl; [reflexivity|].
  erewrite bind_returned by reflexivity.
  erewrite bind_returned by exact IH. reflexivity.
Qed.

(** X17: when every selected id is stored, [getSelected] returns, without
    changing anything, a FeatureCollection with one feature per selected id,
    in the order of the selection, each the GeoJSON form of the stored
    feature of that id. *)
Theorem X17_getSelected_in_selection_order (c : Ctx) :
  selection_valid (store c) ->
  exists fs,
    resolve (selectedIds (store c)) (store c) = map Some fs /\
    map id fs = selectedIds (store c) /\
    api_getSelected c = Returned (FeatureCollection (map toGeoJSON fs)) c.
Proof.
  intro Hv. destruct (resolve_stored _ _ Hv) as [fs [Hr Hi]].
  exists fs. split; [exact Hr|]. split; [exact Hi|].
  unfold api_getSelected.
  erewrite bind_returned by reflexivity.
  erewrite bind_returned by apply mapM_ctx_store_get.
  unfold store_getSelectedIds. rewrite Hr.
  erewrite bind_returned by apply mapM_toGeoJSON_run.
  reflexivity.
Qed.

(** *** splitSelectedFeatures on one id *)

(** X20: a split of ids none of which resolves to a composite touches
    neither the store nor the id generator; all it does is fire the
    creation event with an empty feature list. *)
Theorem X20_split_without_composite (ids : list string) (c : Ctx) :
  (forall i, In i ids -> instanceof_MultiFeature (store_get i (store c)) = false) ->
  api_splitSelectedFeatures (Some ids) c = Returned api (emit (Fire CREATE []) c).
Proof.
  intro H. unfold api_splitSelectedFeatures.
  erewrite bind_returned by apply mapM_ctx_store_get.
  erewrite bind_returned; [reflexivity|].
  apply split_loop_skip_all. unfold resolve. rewrite forallb_forall.
  intros o Ho. apply in_map_iff in Ho. destruct Ho as [i [<- Hi]].
  now rewrite (H i Hi).
Qed.

End Api.

(** ** The properties at sample inputs *)

(** C1 as the spec states it fails: [add] of a point followed by a feature
    with null geometry throws, and the point stays in the store. *)
Lemma C1_counterexample_point_stays :
  ~ add_all_or_nothing no_issues numbered_ids point_then_null empty_ctx.
Proof.
  intro H.
  specialize (H (Err "Invalid geometry: null") point_a_ctx eq_refl).
  discriminate H.
Qed.

Lemma C1_add_error_witness :
  api_add no_issues numbered_ids point_then_null empty_ctx
  = Thrown (Err "Invalid geometry: null") point_a_ctx /\
  ((exists issue others,
      hint_errors no_issues point_then_null = issue :: others /\
      Err "Invalid geometry: null" = Err (message issue) /\ point_a_ctx = empty_ctx) \/
   (exists pre f post ids c1,
      hint_errors no_issues point_then_null = [] /\
      normalize point_then_null = pre ++ f :: post /\
      mapM (add_feature numbered_ids) pre empty_ctx = Returned ids c1 /\
      add_feature numbered_ids f c1 = Thrown (Err "Invalid geometry: null") point_a_ctx /\
      store point_a_ctx = store c1 /\
      (pre = [] -> store point_a_ctx = store empty_ctx))).
Proof.
  split; [reflexivity|].
  apply (C1_add_error_keeps_earlier_features no_issues numbered_ids
           point_then_null empty_ctx point_a_ctx (Err "Invalid geometry: null")).
  reflexivity.
Defined.

Lemma C2_merge_then_split_witness :
  2 <= length ["a"; "b"] /\
  fresh_ids numbered_ids 3 two_lines_ctx /\
  exists c1 composite c2 parts,
    api_mergeSelectedFeatures numbered_ids (Some ["a"; "b"]) two_lines_ctx
    = Returned api c1 /\
    last (creations (effects c1)) [] = [toGeoJSON composite] /\
    api_splitSelectedFeatures numbered_ids (Some [id composite]) c1 = Returned api c2 /\
    features (store c2)
    = filter (fun f => negb (mem (id f) ["a"; "b"])) (features (store two_lines_ctx))
      ++ parts /\
    length parts = length ["a"; "b"] /\
    map coordinates parts = map coordinates [line_a; line_b] /\
    Forall (fun p => model p = SinglePart /\ type p = "LineString" /\ properties p = [])
           parts.
Proof.
  assert (Hlen : 2 <= length ["a"; "b"]) by (simpl; lia).
  assert (Hfresh : fresh_ids numbered_ids 3 two_lines_ctx).
  { split.
    - repeat constructor; simpl; intuition discriminate.
    - simpl. intuition (subst; discriminate). }
  split; [exact Hlen|]. split; [exact Hfresh|].
  apply (C2_merge_then_split numbered_ids ["a"; "b"] [line_a; line_b] "LineString"
           two_lines_ctx Hlen).
  - reflexivity.
  - reflexivity.
  - repeat constructor.
  - exact Hfresh.
Defined.

Lemma C3_delete_witness :
  selection_valid (store direct_select_ctx) /\
  exists c',
    api_delete ["a"] direct_select_ctx = Returned api c' /\
    currentMode c' = SIMPLE_SELECT /\ selectedIds (store c') = [].
Proof.
  assert (Hv : selection_valid (store direct_select_ctx)).
  { intros i [<- | []]. simpl. now left. }
  split; [exact Hv|].
  destruct (C3_delete_escapes_direct_select ["a"] direct_select_ctx Hv)
    as [_ [_ [_ [_ H]]]].
  apply (H "a"); reflexivity.
Defined.

(** C4 as the spec states it fails: the ids ["m"] and ["a"] both resolve,
    the first to a MultiLineString.  The composite would be of the type
    ["MultiMultiLineString"]; its constructor throws, and the store holds no
    such feature after the call. *)
Lemma C4_counterexample_composite_first :
  ~ merge_builds_composite numbered_ids ["m"; "a"] composite_ctx.
Proof.
  intro H.
  destruct (H multi_ab [line_a] eq_refl) as [merged [Hin [Ht _]]]; [discriminate|].
  assert (E : api_mergeSelectedFeatures numbered_ids (Some ["m"; "a"]) composite_ctx
              = Thrown TypeError (bump 1 composite_ctx)) by reflexivity.
  rewrite E in Hin. cbn in Hin.
  destruct Hin as [<- | [<- | []]]; discriminate Ht.
Qed.

Lemma C4_merge_witness :
  resolve ["a"; "b"] (store two_lines_ctx) = map Some [line_a; line_b] /\
  exists c',
    api_mergeSelectedFeatures numbered_ids (Some ["a"; "b"]) two_lines_ctx
    = Returned api c' /\
    store c'
    = store_delete ["a"; "b"]
        (store_add
           (mkFeature "hat0" "MultiLineString" []
              (CArr [coordinates line_a; coordinates line_b]) MultiFeature)
           (store two_lines_ctx)) /\
    effects c'
    = effects (rendered two_lines_ctx)
      ++ [Fire CREATE
            [toGeoJSON (mkFeature "hat0" "MultiLineString" []
                          (CArr [coordinates line_a; coordinates line_b]) MultiFeature)]].
Proof.
  split; [reflexivity|].
  assert (Hrest : [line_b] <> []) by discriminate.
  destruct (C4_merge_builds_composite numbered_ids ["a"; "b"] two_lines_ctx line_a
              [line_b] eq_refl Hrest) as [H _].
  apply H. reflexivity.
Defined.

(** C5 as the spec states it fails: a feature without an id gets a new
    generated id at each [set], so the second call returns another id
    list. *)
Lemma C5_counterexample_generated_ids :
  ~ set_idempotent no_issues numbered_ids (FeatureCollection [point None 1 2]) empty_ctx.
Proof.
  intro H.
  destruct (H ["hat0"]
              (mkCtx (mkStore [mkFeature "hat0" "Point" [] (CArr [CNum 1; CNum 2]) SinglePart]
                              [] false) SIMPLE_SELECT None [Render] 1)
              ["hat1"]
              (mkCtx (mkStore [mkFeature "hat1" "Point" [] (CArr [CNum 1; CNum 2]) SinglePart]
                              [] false) SIMPLE_SELECT None [Render; Render] 2)
              eq_refl eq_refl) as [E _].
  discriminate E.
Qed.

Lemma C5_set_twice_witness :
  store_wf (store empty_ctx) /\
  Forall has_own_id [line (Some "a") 0 1; line (Some "b") 2 3] /\
  Forall not_constructor [line (Some "a") 0 1; line (Some "b") 2 3] /\
  api_set no_issues numbered_ids two_lines empty_ctx
  = Returned ["a"; "b"] two_lines_set_ctx /\
  exists c2,
    api_set no_issues numbered_ids two_lines two_lines_set_ctx
    = Returned ["a"; "b"] c2 /\
    store c2 = store two_lines_set_ctx.
Proof.
  assert (Hwf : store_wf (store empty_ctx)) by (split; constructor).
  assert (Hown : Forall has_own_id [line (Some "a") 0 1; line (Some "b") 2 3]).
  { repeat constructor; eexists; (split; [reflexivity | discriminate]). }
  assert (Hnc : Forall not_constructor [line (Some "a") 0 1; line (Some "b") 2 3]).
  { repeat constructor; intros g Hg; injection Hg as <-; discriminate. }
  split; [exact Hwf|]. split; [exact Hown|]. split; [exact Hnc|].
  split; [reflexivity|].
  apply (C5_set_idempotent_with_own_ids no_issues numbered_ids _ empty_ctx
           two_lines_set_ctx ["a"; "b"] Hwf Hown Hnc).
  reflexivity.
Defined.

Lemma C7_reselect_witness :
  currentMode simple_select_ctx = SIMPLE_SELECT /\
  api_changeMode SIMPLE_SELECT (Some (mkModeOptions (Some ["a"; "a"]) None))
    simple_select_ctx
  = Returned api simple_select_ctx.
Proof.
  split; [reflexivity|].
  destruct (C7_reselect_in_simple_select (Some (mkModeOptions (Some ["a"; "a"]) None))
              simple_select_ctx eq_refl) as [H _].
  apply H. intro i. simpl. tauto.
Defined.

Lemma C9_split_dead_id_witness :
  store_get "gone" (store two_lines_ctx) = None /\
  api_splitSelectedFeatures numbered_ids (Some (["a"] ++ "gone" :: ["b"])) two_lines_ctx
  = api_splitSelectedFeatures numbered_ids (Some (["a"] ++ ["b"])) two_lines_ctx /\
  exists c',
    api_splitSelectedFeatures numbered_ids (Some (["a"] ++ "gone" :: ["b"])) two_lines_ctx
    = Returned api c'.
Proof.
  split; [reflexivity|].
  apply (C9_split_skips_dead_id numbered_ids ["a"] ["b"] "gone" two_lines_ctx).
  left. reflexivity.
Defined.

Lemma C10_split_witness :
  exists created c',
    api_splitSelectedFeatures numbered_ids (Some ["a"; "gone"]) two_lines_ctx
    = Returned api c' /\
    creations (effects c') = creations (effects two_lines_ctx) ++ [created] /\
    ((forall i, In i ["a"; "gone"] ->
                instanceof_MultiFeature (store_get i (store two_lines_ctx)) = false) ->
     created = [] /\ effects c' = effects two_lines_ctx ++ [Fire CREATE []]).
Proof.
  apply (C10_split_fires_one_creation numbered_ids ["a"; "gone"] two_lines_ctx).
Defined.

(** ** The further properties at sample inputs *)

Lemma X1_add_then_get_witness :
  api_add no_issues numbered_ids two_lines empty_ctx
  = Returned ["a"; "b"] two_lines_set_ctx /\
  Forall not_constructor (normalize two_lines) /\
  exists g,
    gf_geometry (line (Some "a") 0 1) = Some g /\
    api_get "a" two_lines_set_ctx
    = Returned (Some (mkGeoFeature (Some "a") (gf_properties (line (Some "a") 0 1)) (Some g)))
               two_lines_set_ctx.
Proof.
  assert (Hnc : Forall not_constructor (normalize two_lines)).
  { repeat constructor; intros g Hg; injection Hg as <-; discriminate. }
  split; [reflexivity|]. split; [exact Hnc|].
  apply (X1_add_then_get no_issues numbered_ids two_lines empty_ctx two_lines_set_ctx
           ["a"; "b"] [] [line (Some "b") 2 3] (line (Some "a") 0 1) "a").
  - reflexivity.
  - repeat constructor; discriminate.
  - exact Hnc.
  - reflexivity.
  - reflexivity.
  - simpl. intros [H | []]. discriminate H.
Defined.

Lemma X2_add_returns_ids_witness :
  api_add no_issues numbered_ids two_lines empty_ctx
  = Returned ["a"; "b"] two_lines_set_ctx /\
  Forall2 (id_assigned numbered_ids) (normalize two_lines) ["a"; "b"].
Proof.
  split; [reflexivity|].
  apply (X2_add_returns_ids_in_order no_issues numbered_ids two_lines empty_ctx
           two_lines_set_ctx ["a"; "b"]).
  reflexivity.
Defined.

Lemma X4_add_renders_once_witness :
  effects two_lines_set_ctx = effects (rendered empty_ctx).
Proof.
  destruct (X4_add_renders_once no_issues numbered_ids two_lines empty_ctx) as [H _].
  apply (H ["a"; "b"] two_lines_set_ctx). reflexivity.
Defined.

Lemma X5_add_throws_first_error_witness :
  note_then_errors two_lines
  = [mkHintIssue (Some "message") "a note"]
    ++ mkHintIssue None "first error" :: [mkHintIssue None "second error"] /\
  api_add note_then_errors numbered_ids two_lines empty_ctx
  = Thrown (Err "first error") empty_ctx.
Proof.
  split; [reflexivity|].
  apply (X5_add_throws_first_error note_then_errors numbered_ids two_lines empty_ctx
           [mkHintIssue (Some "message") "a note"] [mkHintIssue None "second error"]
           (mkHintIssue None "first error")).
  - reflexivity.
  - repeat constructor.
  - discriminate.
Defined.

Lemma X6_set_failure_witness :
  api_set no_issues numbered_ids point_then_null empty_ctx
  = Thrown (Err "Invalid geometry: null") point_a_batch_ctx /\
  (((forall fs, point_then_null <> FeatureCollection fs) /\
    Err "Invalid geometry: null" = Err "Invalid FeatureCollection" /\
    point_a_batch_ctx = empty_ctx) \/
   (api_add no_issues numbered_ids point_then_null (batch_opened empty_ctx)
    = Thrown (Err "Invalid geometry: null") point_a_batch_ctx /\
    batchOpen (store point_a_batch_ctx) = true /\
    effects point_a_batch_ctx = effects empty_ctx)).
Proof.
  split; [reflexivity|].
  apply (X6_set_failure_leaves_batch_open no_issues numbered_ids point_then_null
           empty_ctx point_a_batch_ctx (Err "Invalid geometry: null")).
  reflexivity.
Defined.

Lemma X7_set_renders_once_witness :
  api_set no_issues numbered_ids two_lines empty_ctx
  = Returned ["a"; "b"] two_lines_set_ctx /\
  batchOpen (store two_lines_set_ctx) = false /\
  ((currentMode two_lines_set_ctx = currentMode empty_ctx /\
    effects two_lines_set_ctx = effects empty_ctx ++ [Render]) \/
   (currentMode empty_ctx = DIRECT_SELECT /\
    currentMode two_lines_set_ctx = SIMPLE_SELECT /\
    effects two_lines_set_ctx
    = effects empty_ctx ++ [ModeTransition SIMPLE_SELECT None; Render])).
Proof.
  split; [reflexivity|].
  apply (X7_set_renders_once no_issues numbered_ids two_lines empty_ctx
           two_lines_set_ctx ["a"; "b"]).
  reflexivity.
Defined.

Lemma X8_set_stores_returned_ids_witness :
  api_set no_issues numbered_ids two_lines empty_ctx
  = Returned ["a"; "b"] two_lines_set_ctx /\
  Forall not_constructor (normalize two_lines) /\
  forall k, In k (store_getAllIds (store two_lines_set_ctx)) <-> In k ["a"; "b"].
Proof.
  assert (Hnc : Forall not_constructor (normalize two_lines)).
  { repeat constructor; intros g Hg; injection Hg as <-; discriminate. }
  split; [reflexivity|]. split; [exact Hnc|].
  apply (X8_set_stores_returned_ids no_issues numbered_ids two_lines empty_ctx
           two_lines_set_ctx ["a"; "b"]).
  - reflexivity.
  - repeat constructor; discriminate.
  - exact Hnc.
Defined.

Lemma X9_add_set_invariants_witness :
  store_inv (store empty_ctx) /\
  store_inv (store (outcome_ctx (api_add no_issues numbered_ids point_then_null empty_ctx))) /\
  store_inv (store (outcome_ctx (api_set no_issues numbered_ids point_then_null empty_ctx))).
Proof.
  assert (H : store_inv (store empty_ctx)).
  { split; [constructor | intros i []]. }
  split; [exact H|].
  apply (X9_add_set_keep_store_invariants no_issues numbered_ids point_then_null
           empty_ctx H).
Defined.


Lemma X11_merge_split_invariants_witness :
  store_inv (store two_lines_ctx) /\
  store_inv (store (outcome_ctx
    (api_mergeSelectedFeatures numbered_ids (Some ["a"; "b"]) two_lines_ctx))) /\
  store_inv (store (outcome_ctx
    (api_splitSelectedFeatures numbered_ids (Some ["a"; "b"]) two_lines_ctx))).
Proof.
  assert (H : store_inv (store two_lines_ctx)).
  { split.
    - repeat constructor; simpl; intuition discriminate.
    - intros i []. }
  split; [exact H|].
  apply (X11_merge_split_keep_store_invariants numbered_ids (Some ["a"; "b"])
           two_lines_ctx H).
Defined.

Lemma X15_changeMode_direct_select_witness :
  currentMode direct_select_ctx = DIRECT_SELECT /\
  api_changeMode DIRECT_SELECT (Some (mkModeOptions None (Some "a"))) direct_select_ctx
  = Returned api direct_select_ctx.
Proof.
  split; [reflexivity|].
  destruct (X15_changeMode_direct_select_guard (Some (mkModeOptions None (Some "a")))
              direct_select_ctx eq_refl) as [H _].
  apply H. reflexivity.
Defined.

Lemma X16_changeMode_to_other_mode_witness :
  DIRECT_SELECT <> currentMode simple_select_ctx /\
  api_changeMode DIRECT_SELECT (Some (mkModeOptions None (Some "a"))) simple_select_ctx
  = (ctx_events_changeMode DIRECT_SELECT (Some (mkModeOptions None (Some "a")))
     ;; ret api) simple_select_ctx.
Proof.
  assert (H : DIRECT_SELECT <> currentMode simple_select_ctx) by discriminate.
  split; [exact H|].
  apply (X16_changeMode_to_other_mode DIRECT_SELECT
           (Some (mkModeOptions None (Some "a"))) simple_select_ctx H).
Defined.

Lemma X17_getSelected_witness :
  selection_valid (store simple_select_ctx) /\
  exists fs,
    resolve (selectedIds (store simple_select_ctx)) (store simple_select_ctx)
    = map Some fs /\
    map id fs = selectedIds (store simple_select_ctx) /\
    api_getSelected simple_select_ctx
    = Returned (FeatureCollection (map toGeoJSON fs)) simple_select_ctx.
Proof.
  assert (H : selection_valid (store simple_select_ctx)).
  { intros i [<- | []]. simpl. now left. }
  split; [exact H|].
  apply (X17_getSelected_in_selection_order simple_select_ctx H).
Defined.

Lemma X18_merge_deletes_witness :
  api_get "a"
    (outcome_ctx (api_mergeSelectedFeatures numbered_ids (Some ["a"; "b"]) two_lines_ctx))
  = Returned None
      (outcome_ctx (api_mergeSelectedFeatures numbered_ids (Some ["a"; "b"]) two_lines_ctx)).
Proof.
  apply (X18_merge_deletes_every_given_id numbered_ids ["a"; "b"] two_lines_ctx).
  - reflexivity.
  - simpl. now left.
Defined.

Lemma X20_split_without_composite_witness :
  (forall i, In i ["a"; "gone"] ->
             instanceof_MultiFeature (store_get i (store two_lines_ctx)) = false) /\
  api_splitSelectedFeatures numbered_ids (Some ["a"; "gone"]) two_lines_ctx
  = Returned api (emit (Fire CREATE []) two_lines_ctx).
Proof.
  assert (H : forall i, In i ["a"; "gone"] ->
                        instanceof_MultiFeature (store_get i (store two_lines_ctx)) = false).
  { intros i [<- | [<- | []]]; reflexivity. }
  split; [exact H|].
  apply (X20_split_without_composite numbered_ids ["a"; "gone"] two_lines_ctx H).
Defined.
